(** * A shallow embedding of [shell.c]

    The shell is a single C function, [main]: a read loop that trims the
    input line, handles the [exit] and [!!] control lines, strips a trailing
    [&], tokenises on spaces into the [args] array, looks for the first
    [<], [>] or [|] token, and forks a child that wires up files or a pipe
    and calls [execvp].

    The pure parts of [main] (string trimming, tokenising, the operator
    scan, the pipe split) are Rocq functions over strings and arrays; the
    parts that talk to the operating system are programs of a small monad
    of system calls whose executions are traces of calls and results. *)

From Stdlib Require Import ZArith String Ascii Lia.
From stdpp Require Import base option list strings gmap.

Local Open Scope string_scope.
Local Open Scope Z_scope.

(** ** Constants of the source *)

Definition MAX_LINE : nat := 80.
Definition argSize : nat := (MAX_LINE / 2 + 1)%nat.

(** A [char *] is either [NULL] or the address of a C string; two tokens are
    only ever compared with [strcmp], so a pointer is modelled by the string
    it points to. *)
Abbreviation cptr := (option string).
Abbreviation NULL := (@None string).

(** ** C strings

    A [char] buffer holding a C string is modelled by the characters before
    its terminator. *)
Module CString.

Definition strlen (s : string) : nat := String.length s.

(** [buf[k]] for [k] below [strlen buf]. *)
Definition char_at (s : string) (k : nat) : option ascii := String.get k s.

(** [buf[k] = '\0'] for [k <= strlen buf]: the string now ends at [k]. *)
Definition set_nul (s : string) (k : nat) : string := String.substring 0 k s.

(** [strcmp(a, b) == 0] *)
Definition streq (a b : string) : bool := String.eqb a b.

(** [buf[strlen(buf) - 1]]: with an empty string the index is [-1], which
    is outside the buffer. *)
Definition last_char (s : string) : option ascii :=
  match strlen s with
  | O => None
  | S k => char_at s k
  end.

(** [buf[strlen(buf) - 1] = '\0']: undefined on the empty string. *)
Definition chop_last (s : string) : option string :=
  match strlen s with
  | O => None
  | S k => Some (set_nul s k)
  end.

(** [strtok] of the C library with the delimiter set [" "]: the saved
    position is the rest of the buffer still to be scanned. *)
Definition is_delim (c : ascii) : bool := Ascii.eqb c " "%char.

(** [s + strspn(s, " ")] *)
Fixpoint skip_delims (s : string) : string :=
  match s with
  | String c s' => if is_delim c then skip_delims s' else s
  | EmptyString => EmptyString
  end.

(** The token starting at [s], cut at the first delimiter (which is
    overwritten by a terminator), and the position saved for the next
    call: just after that delimiter, or the end of the string. *)
Fixpoint cut_token (s : string) : string * string :=
  match s with
  | EmptyString => (EmptyString, EmptyString)
  | String c s' =>
      if is_delim c then (EmptyString, s')
      else let (tok, rest) := cut_token s' in (String c tok, rest)
  end.

Definition strtok (saved : string) : option (string * string) :=
  match skip_delims saved with
  | EmptyString => None
  | s => Some (cut_token s)
  end.

End CString.
Import CString.

(** ** The [args] array

    [char *args[argSize]] lives outside the loop, so an iteration starts
    with whatever the previous one left in it.  A store outside the array is
    undefined behaviour and is reported as [None]. *)

Definition store (a : list cptr) (k : nat) (v : cptr) : option (list cptr) :=
  if decide (k < length a)%nat then Some (<[k:=v]> a) else None.

(** Lines 119-125:
<<
      args[numArgs] = strtok(theCommand, " ");
      while (args[numArgs] != NULL)
      {
         numArgs++;
         args[numArgs] = strtok(NULL, " ");
      }
>>
    Every turn of the loop stores into the next slot, so the loop is
    followed along the slots that are left in the array ([room]); when none
    is left the store is out of bounds. *)
Fixpoint tokenize_loop (room : nat) (args : list cptr) (numArgs : nat)
    (saved : string) : option (list cptr * nat) :=
  match room with
  | O => None
  | S room' =>
      match strtok saved with
      | None => Some (<[numArgs:=NULL]> args, numArgs)
      | Some (tok, saved') =>
          tokenize_loop room' (<[numArgs:=Some tok]> args) (S numArgs) saved'
      end
  end.

Definition tokenize (args : list cptr) (theCommand : string)
    : option (list cptr * nat) :=
  tokenize_loop (length args) args 0 theCommand.

(** Lines 131-151: the scan for the first special token.
<<
      int needPipe = 0;
      int ioRedirect = 0;
      int i;
      for (i = 1; i <= numArgs - 1; i++)
      { if (strcmp(args[i], "<") == 0) { ioRedirect = 1; break; }
        else if (strcmp(args[i], ">") == 0) { ioRedirect = 2; break; }
        else if (strcmp(args[i], "|") == 0) { needPipe = 1; break; } }
>>
*)
Record special := Special { needPipe : Z; ioRedirect : Z; opIndex : nat }.

(** [turns] is the number of turns the loop has left, [numArgs - i]. *)
Fixpoint find_special (turns : nat) (args : list cptr) (i : nat)
    : option special :=
  match turns with
  | O => Some (Special 0 0 i)
  | S turns' =>
      match args !! i with
      | Some (Some a) =>
          if streq a "<" then Some (Special 0 1 i)
          else if streq a ">" then Some (Special 0 2 i)
          else if streq a "|" then Some (Special 1 0 i)
          else find_special turns' args (S i)
      | _ => None (* strcmp on NULL, or a read outside the array *)
      end
  end.

Definition scan_special (args : list cptr) (numArgs : nat) : option special :=
  find_special (numArgs - 1) args 1.

(** Lines 179-193: the pipe case splits [args] into two arrays of their own.
<<
            char *firstCommand[i + 1];
            char *secondCommand[numArgs - i];
            for (int j = 0; j < i; j++) { firstCommand[j] = args[j]; }
            firstCommand[i] = NULL;
            for (int j = 0; j < numArgs - i - 1; j++)
            { secondCommand[j] = args[j + i + 1]; }
            secondCommand[numArgs - i - 1] = NULL;
>>
    A fresh automatic array holds indeterminate pointers: [junk] gives them. *)
Definition vla (n : nat) (junk : nat -> cptr) : list cptr := junk <$> seq 0 n.

(** [for (j = ...; <turns more>; j++) dst[j] = src[j + off];] *)
Fixpoint copy_loop (turns : nat) (dst src : list cptr) (j off : nat)
    : option (list cptr) :=
  match turns with
  | O => Some dst
  | S turns' =>
      match src !! (j + off)%nat with
      | Some v =>
          match store dst j v with
          | Some dst' => copy_loop turns' dst' src (S j) off
          | None => None
          end
      | None => None
      end
  end.

Definition split_pipe (junk1 junk2 : nat -> cptr) (args : list cptr)
    (numArgs i : nat) : option (list cptr * list cptr) :=
  let firstCommand := vla (i + 1) junk1 in
  let secondCommand := vla (numArgs - i) junk2 in
  firstCommand ← copy_loop i firstCommand args 0 0;
  firstCommand ← store firstCommand i NULL;
  secondCommand ← copy_loop (numArgs - i - 1) secondCommand args 0 (i + 1);
  secondCommand ← store secondCommand (numArgs - i - 1) NULL;
  Some (firstCommand, secondCommand).

(** ** The line interpreter (lines 112-151)

    Everything [main] computes from the command line before it forks: the
    background flag, the tokenised [args] and the operator found. *)
Record parsed := Parsed {
  bgProcess : Z;
  p_args : list cptr;
  numArgs : nat;
  found : special
}.

(** Lines 112-117:
<<
      bgProcess = theCommand[strlen(theCommand) - 1] == '&';
      if (bgProcess) { theCommand[strlen(theCommand) - 1] = '\0'; }
>>
*)
Definition background (theCommand : string) : option (Z * string) :=
  c ← last_char theCommand;
  let bg := if Ascii.eqb c "&"%char then 1 else 0 in
  if bg =? 0 then Some (bg, theCommand)
  else theCommand ← chop_last theCommand; Some (bg, theCommand).

Definition interpret (args : list cptr) (theCommand : string)
    : option parsed :=
  '(bg, theCommand) ← background theCommand;
  '(args, n) ← tokenize args theCommand;
  sp ← scan_special args n;
  Some (Parsed bg args n sp).

(** The argument vector a program sees: the entries before the first
    [NULL]. *)
Fixpoint argv (a : list cptr) : list string :=
  match a with
  | Some s :: a' => s :: argv a'
  | _ => []
  end.

(** ** System calls

    What [main] asks of the C library and the kernel.  The index is the type
    of what the call gives back: [pipe] its return value and the two
    descriptors it stored, [printf] and [perror] nothing; [printf] carries
    the text it prints.

    [fgets_stdin] is [fgets(theCommand, sizeof(theCommand), stdin)].  [main]
    does not look at what [fgets] returns (line 75), only at the array, so
    the call gives what [theCommand] holds after it: [Some s] when the array
    holds the string [s], [None] when it holds no terminator at all.  The
    array is not initialised (line 68), so at the end of the input, or on a
    read error, [fgets] leaves it with indeterminate contents: some string,
    or no string. *)
Inductive syscall : Type -> Type :=
| printf (text : string) : syscall unit
| fflush_stdout : syscall unit
| fgets_stdin : syscall (option string)
| fork : syscall Z
| wait : syscall Z
| pipe : syscall (Z * (Z * Z))
| dup2 (oldfd newfd : Z) : syscall Z
| close (fd : Z) : syscall Z
| open (path : cptr) (flags mode : Z) : syscall Z
| execvp (file : cptr) (argv : list cptr) : syscall Z
| perror (msg : string) : syscall unit.

(** A program: it returns to its caller, calls [exit], runs into undefined
    behaviour, or makes a system call and goes on with what the call gave. *)
Inductive proc (A : Type) : Type :=
| Ret (a : A)
| Exit (status : Z)
| Undef
| Sys {R : Type} (c : syscall R) (k : R -> proc A).
Arguments Ret {A} a.
Arguments Exit {A} status.
Arguments Undef {A}.
Arguments Sys {A R} c k.

Fixpoint bind {A B : Type} (p : proc A) (f : A -> proc B) : proc B :=
  match p with
  | Ret a => f a
  | Exit n => Exit n
  | Undef => Undef
  | Sys c k => Sys c (fun r => bind (k r) f)
  end.

Definition call {R : Type} (c : syscall R) : proc R := Sys c Ret.

#[global] Instance proc_bind : MBind proc :=
  fun A B (f : A -> proc B) (p : proc A) => bind p f.
#[global] Instance proc_ret : MRet proc := fun A (a : A) => Ret a.

(** Values of [<unistd.h>] and [<fcntl.h>] on Linux, and of [main]'s
    [enum { READ, WRITE }] (the two slots of [fd1], here the two
    descriptors [pipe] gave). *)
Definition STDIN_FILENO : Z := 0.
Definition STDOUT_FILENO : Z := 1.
Definition O_RDONLY : Z := 0.
Definition O_WRONLY : Z := 1.
Definition O_RDWR : Z := 2.
Definition O_ACCMODE : Z := 3.
Definition O_CREAT : Z := 64.    (* 0100 *)
Definition O_TRUNC : Z := 512.   (* 01000 *)
Definition O_APPEND : Z := 1024. (* 02000 *)
Definition mode_0666 : Z := 438.

(** The newline character, for the texts [main] prints and reads. *)
Definition nl : string := String (ascii_of_nat 10) EmptyString.

(** ** The loop of [main] *)

(** What lives across iterations: [should_run], [args] and [history]. *)
Record shell := Shell {
  should_run : Z;
  args : list cptr;
  history : string
}.

(** [char history[MAX_LINE] = {0}], [should_run = 1]; [args] starts with
    indeterminate contents. *)
Definition initial (junk : nat -> cptr) : shell :=
  Shell 1 (vla argSize junk) EmptyString.

Definition is_null (p : cptr) : bool :=
  match p with None => true | Some _ => false end.

Section Main.

(** The indeterminate initial contents of [firstCommand] and
    [secondCommand]. *)
Variables junk1 junk2 : nat -> cptr.

(** Lines 168-231, the child of a piped command.  [st] is what the
    process goes back to the loop with where the code falls out of the
    [if]. *)
Definition pipe_case (st : shell) (a : list cptr) (n i : nat)
    : proc shell :=
  '(r, (fdREAD, fdWRITE)) ← call pipe;
  if r =? -1 then call (perror "Pipe failed");; Exit 1
  else
    match split_pipe junk1 junk2 a n i with
    | None => Undef
    | Some (firstCommand, secondCommand) =>
        gChildPid ← call fork;
        if 0 <? gChildPid then
          call wait;;
          call (dup2 fdREAD STDIN_FILENO);;
          call (close fdREAD);;
          call (close fdWRITE);;
          match secondCommand !! 0%nat with
          | None => Undef
          | Some file =>
              r ← call (execvp file secondCommand);
              if r =? -1 then call (perror "Exec failed");; Exit 1
              else Ret st
          end
        else if gChildPid =? 0 then
          call (dup2 fdWRITE STDOUT_FILENO);;
          call (close fdWRITE);;
          call (close fdREAD);;
          match firstCommand !! 0%nat with
          | None => Undef
          | Some file =>
              r ← call (execvp file firstCommand);
              if r =? -1 then call (perror "Exec failed");; Exit 1
              else Exit 1
          end
        else
          call (perror "Child fork failed");; Ret st
    end.

(** Lines 269-285: the [execvp] of the unpiped command and what follows
    it.  [fd2] is [None] while the variable has not been assigned. *)
Definition exec_command (st : shell) (a : list cptr) (ioR : Z)
    (fd2 : option Z) : proc shell :=
  match a !! 0%nat with
  | None => Undef
  | Some file =>
      r ← call (execvp file a);
      if r =? -1 then call (perror "Exec failed");; Exit 1
      else
        (if ioR =? 1 then call (close STDIN_FILENO);; Ret tt
         else if ioR =? 2 then call (close STDOUT_FILENO);; Ret tt
         else Ret tt);;
        match fd2 with
        | None => Undef
        | Some fd => call (close fd);;
                     Ret (Shell (should_run st) a (history st))
        end
  end.

(** Lines 236-267 for one direction: open the file named after the
    operator, check, cut [args] at the operator, redirect. *)
Definition redirect (st : shell) (a : list cptr) (i : nat) (ioR : Z)
    (flags : Z) (msg : string) (target : Z) : proc shell :=
  match a !! (i + 1)%nat with
  | None => Undef
  | Some name =>
      fd2 ← call (open name flags mode_0666);
      if (fd2 =? -1) || is_null name then call (perror msg);; Exit 1
      else
        match store a i NULL with
        | None => Undef
        | Some a1 =>
            match store a1 (i + 1) NULL with
            | None => Undef
            | Some a2 =>
                call (dup2 fd2 target);;
                exec_command st a2 ioR (Some fd2)
            end
        end
  end.

(** Lines 234-286, the child of a command without a pipe. *)
Definition plain_case (st : shell) (a : list cptr) (i : nat) (ioR : Z)
    : proc shell :=
  if ioR =? 1 then
    redirect st a i ioR O_RDONLY "Input file failed" STDIN_FILENO
  else if ioR =? 2 then
    redirect st a i ioR (Z.lor (Z.lor O_WRONLY O_CREAT) O_TRUNC)
      "Output file failed" STDOUT_FILENO
  else exec_command st a ioR None.

(** Lines 165-287: the branch [childPid == 0]. *)
Definition child (st : shell) (p : parsed) : proc shell :=
  if needPipe (found p) =? 0
  then plain_case st (p_args p) (opIndex (found p)) (ioRedirect (found p))
  else pipe_case st (p_args p) (numArgs p) (opIndex (found p)).

(** Lines 112-292: from the background check to the end of the loop
    body. *)
Definition dispatch (st : shell) (theCommand : string) : proc shell :=
  match interpret (args st) theCommand with
  | None => Undef
  | Some p =>
      let st := Shell (should_run st) (p_args p) (history st) in
      childPid ← call fork;
      if 0 <? childPid then
        if bgProcess p =? 0 then call wait;; Ret st else Ret st
      else if childPid =? 0 then child st p
      else call (perror "Fork failed");; Ret st
  end.

(** Lines 68-110 and on: one turn of [while (should_run)]. *)
Definition iteration (st : shell) : proc shell :=
  call (printf "osh> ");;
  call fflush_stdout;;
  theCommand ← call fgets_stdin;
  match theCommand with
  | None => Undef (* [strlen] runs past the end of the array *)
  | Some theCommand =>
      match chop_last theCommand with
      | None => Undef
      | Some theCommand =>
          if streq theCommand "" then Ret st
          else if streq theCommand "exit" then
            Ret (Shell 0 (args st) (history st))
          else if streq theCommand "!!" then
            if streq (history st) "" then
              call (printf ("No command in history." ++ nl));; Ret st
            else
              let theCommand := history st in
              call (printf ("Previous command: " ++ theCommand ++ nl));;
              dispatch st theCommand
          else
            dispatch (Shell (should_run st) (args st) theCommand) theCommand
      end
  end.

End Main.

(** ** Executions

    An execution of a program is the list of the calls it made, each with
    what it gave back, and the way the program ended. *)
Inductive outcome (A : Type) : Type :=
| Returned (a : A)
| Exited (status : Z)
| Replaced (file : string) (av : list string)
| Undefined.
Arguments Returned {A} a.
Arguments Exited {A} status.
Arguments Replaced {A} file av.
Arguments Undefined {A}.

(** [Ev c r]: the call [c] returned [r].  [Gone c]: the call did not
    return. *)
Inductive event : Type :=
| Ev {R : Type} (c : syscall R) (r : R)
| Gone {R : Type} (c : syscall R).

(** What a call may give back: a string in [theCommand], an array of
    [MAX_LINE] characters, has at most [MAX_LINE - 1] of them before its
    terminator; [execvp] only comes back with [-1]; the others are left
    free. *)
Definition returns {R : Type} (c : syscall R) : R -> Prop :=
  match c in syscall R return R -> Prop with
  | fgets_stdin => fun buf =>
      match buf with
      | Some s => (strlen s < MAX_LINE)%nat
      | None => True
      end
  | execvp file _ => fun r => file <> NULL /\ r = -1
  | _ => fun _ => True
  end.

(** Calls that may not come back: a successful [execvp] replaces the
    program, and [execvp] of a null file name is undefined (the library
    reads the name).  [open] of a null path is a call that comes back: the
    kernel refuses the address. *)
Definition departs {R A : Type} (c : syscall R) (o : outcome A) : Prop :=
  match c with
  | execvp (Some f) a => o = Replaced f (argv a)
  | execvp None _ => o = Undefined
  | _ => False
  end.

Fixpoint exec {A : Type} (p : proc A) (tr : list event) (o : outcome A)
    : Prop :=
  match p with
  | Ret a => tr = [] /\ o = Returned a
  | Exit n => tr = [] /\ o = Exited n
  | Undef => tr = [] /\ o = Undefined
  | Sys c k =>
      (exists r tr', returns c r /\ tr = Ev c r :: tr' /\ exec (k r) tr' o)
      \/ (tr = [Gone c] /\ departs c o)
  end.

(** [while (should_run)]: [loop st tr st'] when the process, at the head of
    the loop in state [st], runs some turns of it in full, making the calls
    [tr], and is back at the head of the loop in state [st']. *)
Inductive loop (junk1 junk2 : nat -> cptr) : shell -> list event -> shell -> Prop :=
| loop_here st : loop junk1 junk2 st [] st
| loop_turn st tr1 st1 tr2 st2 :
    should_run st <> 0 ->
    exec (iteration junk1 junk2 st) tr1 (Returned st1) ->
    loop junk1 junk2 st1 tr2 st2 ->
    loop junk1 junk2 st (tr1 ++ tr2) st2.

(** The lines a process has read, without their last character, in the
    order they were entered. *)
Definition entered_line (e : event) : option string :=
  match e with
  | Ev fgets_stdin (Some s) =>
      match chop_last s with Some l => Some l | None => None end
  | _ => None
  end.

Definition entered (tr : list event) : list string :=
  omap entered_line tr.

Definition is_fork (e : event) : bool :=
  match e with Ev fork _ => true | _ => false end.

Definition is_printf (text : string) (e : event) : bool :=
  match e with Ev (printf t) _ => streq t text | _ => false end.

(** ** Classification

    The branch of lines 165-287 that the two flags select: the pipe case is
    tested first, then the two directions of a redirection. *)
Inductive classification : Type :=
| Plain | InputRedirect | OutputRedirect | Pipe.

Definition classify (sp : special) : classification :=
  if needPipe sp =? 0 then
    if ioRedirect sp =? 1 then InputRedirect
    else if ioRedirect sp =? 2 then OutputRedirect
    else Plain
  else Pipe.

(** The operator tokens and what each stands for. *)
Definition operator (t : string) : option classification :=
  if streq t "<" then Some InputRedirect
  else if streq t ">" then Some OutputRedirect
  else if streq t "|" then Some Pipe
  else None.

(** [sp] names the first operator token among the slots [lo] to [hi - 1]
    of [a]. *)
Definition first_operator (a : list cptr) (lo hi : nat) (sp : special)
    : Prop :=
  (lo <= opIndex sp < hi)%nat /\
  (exists t, a !! opIndex sp = Some (Some t) /\
             operator t = Some (classify sp)) /\
  (forall j t, (lo <= j < opIndex sp)%nat -> a !! j = Some (Some t) ->
               operator t = None).

(** There is no operator token among the slots [lo] to [hi - 1] of [a],
    and [sp] says so. *)
Definition no_operator (a : list cptr) (lo hi : nat) (sp : special)
    : Prop :=
  classify sp = Plain /\
  (forall j t, (lo <= j < hi)%nat -> a !! j = Some (Some t) ->
               operator t = None).

(** At most one of the two flags is raised. *)
Definition one_flag (sp : special) : Prop :=
  (needPipe sp = 0 /\ ioRedirect sp = 0) \/
  (needPipe sp = 0 /\ ioRedirect sp = 1) \/
  (needPipe sp = 0 /\ ioRedirect sp = 2) \/
  (needPipe sp = 1 /\ ioRedirect sp = 0).

(** ** The line interpreter as the specification words it

    These definitions are not taken from [main]: they say in the
    specification's terms what the interpreter is to compute, for [main]'s
    [interpret] to be compared with.

    "If [the last character is [&]], that character is stripped from the
    Command Line before tokenization": the line without a final [&]. *)
Fixpoint spec_command (line : string) : string :=
  match line with
  | EmptyString => EmptyString
  | String c rest =>
      match rest with
      | EmptyString => if Ascii.eqb c "&"%char then EmptyString else line
      | String _ _ => String c (spec_command rest)
      end
  end.

(** The pieces of a string between its spaces, empty ones included. *)
Fixpoint spec_fields (s : string) : list string :=
  match s with
  | EmptyString => [EmptyString]
  | String c s' =>
      if Ascii.eqb c " "%char then EmptyString :: spec_fields s'
      else
        match spec_fields s' with
        | w :: ws => String c w :: ws
        | [] => [String c EmptyString]
        end
  end.

(** The words of a string: the pieces that are not empty. *)
Definition spec_words (s : string) : list string :=
  List.filter (fun w => negb (String.eqb w "")) (spec_fields s).

(** "Tokenize the Command Line into an Argument Vector". *)
Definition spec_tokens (line : string) : list string :=
  spec_words (spec_command line).

(** "Scan the Argument Vector from index 1 onward for the first token
    matching [<], [>] or [|]; record Operator Classification and its
    index": [None] when there is no such token. *)
Fixpoint spec_scan (toks : list string) (i : nat)
    : option (classification * nat) :=
  match toks with
  | [] => None
  | t :: toks' =>
      match operator t with
      | Some c => Some (c, i)
      | None => spec_scan toks' (S i)
      end
  end.

Definition spec_first_operator (toks : list string)
    : option (classification * nat) :=
  spec_scan (tail toks) 1.

Definition is_execvp (e : event) : bool :=
  match e with
  | Ev (execvp _ _) _ => true
  | Gone (execvp _ _) => true
  | _ => false
  end.

(** An [execvp] that came back. *)
Definition is_failed_exec (e : event) : bool :=
  match e with Ev (execvp _ _) _ => true | _ => false end.

(** What a [fork] gave back. *)
Definition fork_result (e : event) : option Z :=
  match e with Ev fork r => Some r | _ => None end.

(** [Q] holds of what follows each event that [P] picks. *)
Fixpoint after_each (P : event -> bool) (Q : list event -> Prop)
    (tr : list event) : Prop :=
  match tr with
  | [] => True
  | e :: tr' => (P e = true -> Q tr') /\ after_each P Q tr'
  end.

(** A line that the loop takes for a command: not empty, not [exit], not
    [!!]. *)
Definition is_command (l : string) : bool :=
  negb (streq l "") && negb (streq l "exit") && negb (streq l "!!").

(** The most recent command among the lines entered. *)
Definition most_recent_command (ls : list string) : option string :=
  last (List.filter is_command ls).

(** A shell that starts with nothing to recall: what the array holds does
    not matter. *)
Definition no_junk : nat -> cptr := fun _ => NULL.
Definition fresh_shell : shell := initial no_junk.

(** ** Executions with the children of the process

    To say when a process runs relative to its children, an execution is
    followed together with the children of the process: how many are still
    running, and how many have ended and have not been waited for yet. *)
Record kids := Kids { running : nat; ended : nat }.

(** Between two calls of the process, any of its running children may
    end. *)
Inductive kid_exits : kids -> kids -> Prop :=
| exits_none ks : kid_exits ks ks
| exits_one r z ks :
    kid_exits (Kids r (S z)) ks -> kid_exits (Kids (S r) z) ks.

(** What a call does to the children.  In the parent [fork] adds a running
    child; the new process has none.  [wait] comes back for a child that has
    ended, or with [-1] when there is no child at all; while every child is
    still running it does not come back. *)
Definition kid_effect {R : Type} (c : syscall R) : R -> kids -> kids -> Prop :=
  match c in syscall R return R -> kids -> kids -> Prop with
  | fork => fun pid ks ks' =>
      if 0 <? pid then ks' = Kids (S (running ks)) (ended ks)
      else if pid =? 0 then ks' = Kids 0 0
      else ks' = ks
  | wait => fun r ks ks' =>
      match ended ks with
      | S z => ks' = Kids (running ks) z
      | O => running ks = O /\ r = -1 /\ ks' = ks
      end
  | _ => fun _ ks ks' => ks' = ks
  end.

(** Each event comes with the children of the process at the time of the
    call. *)
Fixpoint exec_k {A : Type} (p : proc A) (ks : kids)
    (tr : list (event * kids)) (o : outcome A) : Prop :=
  match p with
  | Ret a => tr = [] /\ o = Returned a
  | Exit n => tr = [] /\ o = Exited n
  | Undef => tr = [] /\ o = Undefined
  | Sys c k =>
      exists ks1, kid_exits ks ks1 /\
        ((exists r ks2 tr',
            returns c r /\ kid_effect c r ks1 ks2 /\
            tr = (Ev c r, ks1) :: tr' /\ exec_k (k r) ks2 tr' o)
         \/ (tr = [(Gone c, ks1)] /\ departs c o))
  end.

Definition is_dup2 (e : event) : bool :=
  match e with Ev (dup2 _ _) _ => true | _ => false end.

Definition is_child_fork (e : event) : bool :=
  match fork_result e with Some pid => pid =? 0 | None => false end.

(** From the [fork] that made the process a child on ([child] says whether
    it already is one), every [dup2] and [execvp] finds no child of the
    process running. *)
Fixpoint settled (child : bool) (tr : list (event * kids)) : Prop :=
  match tr with
  | [] => True
  | (e, ks) :: tr' =>
      (child = true -> is_dup2 e || is_execvp e = true -> running ks = O) /\
      settled (child || is_child_fork e) tr'
  end.

(** ** Files

    What [open], [dup2], [close] and a write do to the files, after POSIX:
    the contents of each file by name, and for each open descriptor the file
    it refers to, the position of its next write and the flags it was opened
    with. *)
Record ofile := OFile { of_path : string; of_pos : nat; of_flags : Z }.

Record world := World {
  files : gmap string string;
  fdtab : gmap Z ofile
}.

Definition has_flag (flags bit : Z) : bool := negb (Z.land flags bit =? 0).

Definition writable (flags : Z) : bool :=
  (Z.land flags O_ACCMODE =? O_WRONLY) || (Z.land flags O_ACCMODE =? O_RDWR).

(** A successful [open]: [O_CREAT] makes a missing file (empty), [O_TRUNC]
    with write access empties an existing one; the descriptor starts at
    position 0. *)
Definition sys_open (w : world) (path : string) (flags fd : Z) : world :=
  let fs :=
    match files w !! path with
    | None => if has_flag flags O_CREAT then <[path:=""]> (files w)
              else files w
    | Some _ => if has_flag flags O_TRUNC && writable flags
                then <[path:=""]> (files w) else files w
    end in
  World fs (<[fd:=OFile path 0 flags]> (fdtab w)).

(** [write(fd, data)]: at the end of the file with [O_APPEND], else at the
    position of the descriptor, over what was there. *)
Definition sys_write (w : world) (fd : Z) (data : string) : world :=
  match fdtab w !! fd with
  | Some f =>
      if writable (of_flags f) then
        let old := default "" (files w !! of_path f) in
        let pos := if has_flag (of_flags f) O_APPEND then strlen old
                   else of_pos f in
        let after := (pos + strlen data)%nat in
        let new := String.substring 0 pos old ++ data ++
                   String.substring after (strlen old - after) old in
        World (<[of_path f:=new]> (files w))
              (<[fd:=OFile (of_path f) after (of_flags f)]> (fdtab w))
      else w
  | None => w
  end.

(** The effect of a call that came back, or [None] when what it gave back
    is not what the files allow: [open] gives [-1] or a descriptor, [dup2]
    gives [newfd] when [oldfd] is open and [-1] when it is not. *)
Definition effect (w : world) (e : event) : option world :=
  match e with
  | Ev (open path flags _) fd =>
      if fd =? -1 then Some w
      else
        match path with
        | Some name => if 0 <=? fd then Some (sys_open w name flags fd)
                       else None
        | None => None
        end
  | Ev (dup2 oldfd newfd) r =>
      match fdtab w !! oldfd with
      | Some f =>
          if r =? newfd then Some (World (files w) (<[newfd:=f]> (fdtab w)))
          else None
      | None => if r =? -1 then Some w else None
      end
  | Ev (close fd) _ => Some (World (files w) (delete fd (fdtab w)))
  | _ => Some w
  end.

Fixpoint effects (w : world) (tr : list event) : option world :=
  match tr with
  | [] => Some w
  | e :: tr' => match effect w e with
                | Some w' => effects w' tr'
                | None => None
                end
  end.

(** A child from its [fork] to its end: the calls it made, then, when an
    [execvp] replaced it, the program, which writes [output file av] to its
    standard output. *)
Definition run_child (output : string -> list string -> string) (w : world)
    (tr : list event) (o : outcome shell) : option world :=
  match effects w tr with
  | Some w' =>
      match o with
      | Replaced file av => Some (sys_write w' STDOUT_FILENO (output file av))
      | _ => Some w'
      end
  | None => None
  end.

(** [echo]: its arguments, separated by spaces, and a newline. *)
Definition echo_output (file : string) (av : list string) : string :=
  String.concat " " (tail av) ++ nl.

(** What the interpreter makes of [echo hi > out.txt]. *)
Definition echo_hi : parsed :=
  Parsed 0
    (Some "echo" :: Some "hi" :: Some ">" :: Some "out.txt"
     :: replicate 37 NULL)
    4 (Special 0 2 2).

(** Thirty-nine times ["a "] and a last ["a"]: 79 characters, 40 tokens. *)
Fixpoint repeat_string (n : nat) (s : string) : string :=
  match n with
  | O => EmptyString
  | S n' => s ++ repeat_string n' s
  end.

Definition full_line : string := repeat_string 39 "a " ++ "a".

(** What holds of the shell at the head of the loop: [args] has its
    [argSize] slots and [history] holds a string that fits its buffer. *)
Definition shell_ok (st : shell) : Prop :=
  length (args st) = argSize /\ (strlen (history st) < MAX_LINE)%nat.

(** ** Words

    What a token of the line looks like: no space in it. *)
Fixpoint space_free (s : string) : bool :=
  match s with
  | EmptyString => true
  | String c s' => negb (is_delim c) && space_free s'
  end.

(** The line without its spaces. *)
Fixpoint drop_spaces (s : string) : string :=
  match s with
  | EmptyString => EmptyString
  | String c s' => if is_delim c then drop_spaces s'
                   else String c (drop_spaces s')
  end.

(** ** [main] as a whole

    Line 64, the banner printed before the loop. *)
Definition dquote : string := String (ascii_of_nat 34) EmptyString.

Definition banner : string :=
  "Unix C Shell by Korosh Moosavi. Begin typing commands, or type "
  ++ dquote ++ "exit" ++ dquote ++ " to quit." ++ nl.

(** [main] runs off its end: it has printed the banner, made some turns of
    the loop from the initial state, and found [should_run] to be 0. *)
Inductive main_returns (junk1 junk2 junk : nat -> cptr) : list event -> Prop :=
| main_end tr st :
    loop junk1 junk2 (initial junk) tr st ->
    should_run st = 0 ->
    main_returns junk1 junk2 junk (Ev (printf banner) tt :: tr).

Definition is_wait (e : event) : bool :=
  match e with Ev wait _ => true | _ => false end.

Definition is_failed_fork (e : event) : bool :=
  match fork_result e with Some pid => pid <? 0 | None => false end.

(** A [pipe] that gave [-1]. *)
Definition is_failed_pipe (e : event) : bool :=
  match e with Ev pipe r => r.1 =? -1 | _ => false end.

(** An [open]: its path, flags and mode, and what it gave. *)
Definition open_call (e : event) : option (cptr * Z * Z * Z) :=
  match e with
  | Ev (open path flags mode) fd => Some (path, flags, mode, fd)
  | _ => None
  end.

(** [Q] holds of each event and what follows it. *)
Fixpoint after_every (Q : event -> list event -> Prop) (tr : list event)
    : Prop :=
  match tr with
  | [] => True
  | e :: tr' => Q e tr' /\ after_every Q tr'
  end.

(** The ways the loop body runs into undefined behaviour: its last call is
    the [fgets] that left no string in [theCommand], or the empty string,
    or it is an [execvp] with a null file name. *)
Definition ends_badly (tr : list event) : bool :=
  match last tr with
  | Some (Ev fgets_stdin None) => true
  | Some (Ev fgets_stdin (Some s)) => streq s ""
  | Some (Gone (execvp None _)) => true
  | _ => false
  end.

(** What the history slot holds at the head of the loop: nothing, or a
    command that [fgets] could have read, newline included. *)
Definition history_ok (st : shell) : Prop :=
  history st = "" \/
  (is_command (history st) = true /\
   (strlen (history st) + 1 < MAX_LINE)%nat).

(** ** Descriptors

    The descriptors that the calls of a process made and have not closed,
    in the order they were made: the two that [pipe] stored when it did not
    give [-1], the one [open] gave when it is not [-1], less those given to
    [close]. *)
Definition descriptors_after (fds : list Z) (e : event) : list Z :=
  match e with
  | Ev pipe r => if r.1 =? -1 then fds else (fds ++ [r.2.1; r.2.2])%list
  | Ev (open _ _ _) fd => if fd =? -1 then fds else (fds ++ [fd])%list
  | Ev (close fd) _ => List.filter (fun x => negb (x =? fd)) fds
  | _ => fds
  end.

Definition still_open (tr : list event) : list Z :=
  foldl descriptors_after [] tr.

(** A [pipe]: what it gave, and the two descriptors it stored. *)
Definition pipe_call (e : event) : option (Z * Z * Z) :=
  match e with
  | Ev pipe r => Some (r.1, r.2.1, r.2.2)
  | _ => None
  end.

(** * Properties *)

(** ** Tactics *)

(** Take an execution apart along the program. *)
Ltac exec_step H :=
  cbn [exec mbind proc_bind bind call] in H;
  lazymatch type of H with
  | _ \/ _ =>
      let r := fresh "r" in
      let tr := fresh "tr" in
      let Hr := fresh "Hr" in
      destruct H as [(r & tr & Hr & -> & H)|[-> H]];
      [cbn [returns] in Hr;
       lazymatch type of r with
       | unit => destruct r
       | _ => idtac
       end;
       lazymatch type of Hr with
       | _ /\ _ => destruct Hr as [Hr ->]
       | match r with _ => _ end => destruct r as [r|]; cbv beta iota in Hr
       | _ => idtac
       end
      |cbn [departs] in H; try contradiction;
       repeat lazymatch type of H with
              | match ?x with _ => _ end => destruct x
              end;
       lazymatch type of H with
       | ?v = _ => subst v
       end]
  | _ = _ /\ _ = _ => destruct H as [-> ->]
  | exec (if -1 =? -1 then _ else _) _ _ =>
      change (-1 =? -1) with true in H; cbv iota in H
  | exec (if ?x =? 0 then _ else _) _ _ =>
      let E := fresh "E" in
      destruct (Z.eqb_spec x 0) as [E|E]; [try subst x|]
  | exec (if ?b then _ else _) _ _ => destruct b eqn:?
  | exec (match ?x with _ => _ end) _ _ => destruct x eqn:?
  | exec (let (_, _) := ?x in _) _ _ => destruct x eqn:?
  end.

Ltac exec_all H := repeat exec_step H.

Ltac in_list := solve [simpl; repeat (first [left; reflexivity | right])].

Ltac unfold_main H :=
  unfold iteration, dispatch, child, plain_case, pipe_case, redirect,
    exec_command in H.

(** Build an execution along a given list of calls. *)
Ltac solve_returns :=
  cbn [returns];
  first [exact I | split; [discriminate|reflexivity] | vm_compute; lia].

Ltac exec_run1 :=
  hnf;
  lazymatch goal with
  | |- _ = _ /\ _ = _ => split; reflexivity
  | |- _ \/ _ =>
      first
        [ left; eexists _, _; split; [|split; [reflexivity|]];
          [solve_returns|]
        | right; split; [reflexivity|hnf; reflexivity] ]
  end.

Ltac exec_run := repeat exec_run1.

Ltac kids_inv Hke :=
  lazymatch type of Hke with
  | kid_exits (Kids O _) _ => inversion Hke; subst; clear Hke
  | kid_exits (Kids (S _) _) _ =>
      let Hke' := fresh "Hke" in
      inversion Hke as [|? ? ? Hke']; subst; clear Hke;
      [|kids_inv Hke']
  | _ => idtac
  end.

Ltac execk_step H :=
  cbn [exec_k mbind proc_bind bind call] in H;
  lazymatch type of H with
  | exists _, _ =>
      let ks := fresh "ks" in
      let ks' := fresh "ks" in
      let Hke := fresh "Hke" in
      let He := fresh "He" in
      let r := fresh "r" in
      let tr := fresh "tr" in
      let Hr := fresh "Hr" in
      destruct H as (ks & Hke & [(r & ks' & tr & Hr & He & -> & H)|[-> H]]);
      [cbn [returns] in Hr; cbn [kid_effect running ended] in He;
       lazymatch type of r with
       | unit => destruct r
       | _ => idtac
       end;
       lazymatch type of Hr with
       | _ /\ _ => destruct Hr as [Hr ->]
       | match r with _ => _ end => destruct r as [r|]; cbv beta iota in Hr
       | _ => idtac
       end;
       lazymatch type of He with
       | _ /\ _ /\ _ => destruct He as (_ & _ & ->)
       | ?v = _ => subst v
       | _ => idtac
       end
      |cbn [departs] in H; try contradiction;
       repeat lazymatch type of H with
              | match ?x with _ => _ end => destruct x
              end;
       lazymatch type of H with
       | ?v = _ => subst v
       end]
  | _ = _ /\ _ = _ => destruct H as [-> ->]
  | exec_k (if -1 =? -1 then _ else _) _ _ _ =>
      change (-1 =? -1) with true in H; cbv iota in H
  | exec_k (if 0 <? ?x then _ else _) _ _ _ =>
      let E := fresh "E" in
      destruct (Z.ltb_spec 0 x) as [E|E]
  | exec_k (if ?x =? 0 then _ else _) _ _ _ =>
      let E := fresh "E" in
      destruct (Z.eqb_spec x 0) as [E|E]; [try subst x|]
  | exec_k (if ?b then _ else _) _ _ _ => destruct b eqn:?
  | exec_k (match ?x with _ => _ end) _ _ _ => destruct x eqn:?
  | exec_k (let (_, _) := ?x in _) _ _ _ => destruct x eqn:?
  end.

Ltac kids_tidy :=
  repeat match goal with
         | He : if true then _ else _ |- _ => cbv iota in He
         | He : if false then _ else _ |- _ => cbv iota in He
         | He : context [running (Kids _ _)] |- _ =>
             progress cbn [running ended] in He
         | He : context [ended (Kids _ _)] |- _ =>
             progress cbn [running ended] in He
         | He : S _ = O /\ _ |- _ => destruct He as [He _]; discriminate He
         | He : O = O /\ _ = _ /\ _ = _ |- _ => destruct He as (_ & ? & He)
         | He : ?v = Kids _ _ |- _ => is_var v; subst v
         | He : ?v = ?w |- _ => is_var v; is_var w; subst v
         | Hke : kid_exits (Kids _ _) _ |- _ => progress (kids_inv Hke)
         end.

Ltac execk_all H := repeat (execk_step H; kids_tidy).

Ltac execk_run1 :=
  hnf;
  lazymatch goal with
  | |- _ = _ /\ _ = _ => split; reflexivity
  | |- exists _, _ =>
      eexists; split;
      [|first
          [ left; eexists _, _, _; split; [|split; [|split; [reflexivity|]]]
          | right; split; [reflexivity|hnf; reflexivity] ]];
      first
        [ solve [repeat constructor]
        | solve_returns
        | solve [cbn; reflexivity]
        | idtac ]
  end.

Ltac execk_run := repeat execk_run1.


(** ** Tokenising *)

Lemma skip_delims_length s : (strlen (skip_delims s) <= strlen s)%nat.
Proof.
  induction s as [|c s IH]; simpl; [lia|].
  destruct (is_delim c); simpl; unfold strlen in *; lia.
Qed.

Lemma skip_delims_head s c s' :
  skip_delims s = String c s' -> is_delim c = false.
Proof.
  induction s as [|d s IH]; simpl; [discriminate|].
  destruct (is_delim d) eqn:E; [exact IH|].
  intros [= <- _]. exact E.
Qed.

Lemma cut_token_length s t r :
  cut_token s = (t, r) ->
  (strlen t + strlen r + 1 = strlen s \/ (r = "" /\ strlen t = strlen s))%nat.
Proof.
  revert t r. induction s as [|c s IH]; simpl; intros t r.
  - intros [= <- <-]. right. split; reflexivity.
  - destruct (is_delim c).
    + intros [= <- <-]. left. unfold strlen. simpl. lia.
    + destruct (cut_token s) as [t' r'] eqn:E. intros [= <- <-].
      destruct (IH _ _ eq_refl) as [H|[-> H]]; unfold strlen in *; simpl.
      * left. lia.
      * right. split; [reflexivity|lia].
Qed.

(** A token is not empty, and a call of [strtok] uses up the token and the
    delimiter after it. *)
Lemma strtok_shrinks s t r :
  strtok s = Some (t, r) ->
  t <> "" /\
  ((strlen r + 2 <= strlen s)%nat \/ (r = "" /\ (1 <= strlen s)%nat)).
Proof.
  unfold strtok. pose proof (skip_delims_length s) as Hlen.
  destruct (skip_delims s) as [|c s'] eqn:E; [discriminate|].
  apply skip_delims_head in E. intros [= H].
  simpl in H. rewrite E in H.
  destruct (cut_token s') as [t' r'] eqn:Ec. injection H as <- <-.
  split; [discriminate|].
  apply cut_token_length in Ec. unfold strlen in *. simpl in *.
  destruct Ec as [Ec|[-> Ec]]; [left|right]; [lia|split; [reflexivity|lia]].
Qed.

(** The loop ends within the array when twice the room left exceeds the
    length of what is left of the line. *)
Lemma tokenize_loop_fits room a k saved :
  (strlen saved + 1 < 2 * room)%nat ->
  exists a' n, tokenize_loop room a k saved = Some (a', n) /\
               (2 * n <= 2 * k + strlen saved + 1)%nat.
Proof.
  revert a k saved. induction room as [|room IH]; intros a k saved Hroom;
    [lia|].
  simpl. destruct (strtok saved) as [[t r]|] eqn:E.
  - apply strtok_shrinks in E as [_ E].
    destruct (IH (<[k:=Some t]> a) (S k) r) as (a' & n & -> & Hn).
    + destruct E as [E|[-> E]]; [lia|]. unfold strlen in *. simpl. lia.
    + exists a', n. split; [reflexivity|].
      destruct E as [E|[-> E]]; [lia|]. unfold strlen in *. simpl in *. lia.
  - exists (<[k:=NULL]> a), k. split; [reflexivity|lia].
Qed.

(** What the loop leaves in the array: the slots it went through hold
    tokens, the slot it stopped at holds [NULL], the slots before are as
    they were. *)
Lemma tokenize_loop_shape room a k saved a' n :
  tokenize_loop room a k saved = Some (a', n) ->
  (k + room <= length a)%nat ->
  length a' = length a /\ (k <= n < k + room)%nat /\
  (forall j, (j < k)%nat -> a' !! j = a !! j) /\
  (forall j, (k <= j < n)%nat -> exists t, a' !! j = Some (Some t) /\ t <> "") /\
  a' !! n = Some NULL.
Proof.
  revert a k saved. induction room as [|room IH]; intros a k saved;
    [discriminate|].
  simpl. destruct (strtok saved) as [[t r]|] eqn:E.
  - intros H Hk. apply IH in H; [|rewrite length_insert; lia].
    rewrite length_insert in H. destruct H as (Hl & Hn & Hlo & Hmid & Hend).
    split; [exact Hl|]. split; [lia|]. split; [|split; [|exact Hend]].
    + intros j Hj. rewrite Hlo by lia. apply list_lookup_insert_ne. lia.
    + intros j Hj. destruct (decide (j = k)) as [->|Hne].
      * exists t. rewrite Hlo by lia.
        rewrite list_lookup_insert_eq by lia.
        split; [reflexivity|]. apply (strtok_shrinks _ _ _ E).
      * apply Hmid. lia.
  - intros [= <- <-] Hk. rewrite length_insert.
    split; [reflexivity|]. split; [lia|]. split; [|split].
    + intros j Hj. apply list_lookup_insert_ne. lia.
    + intros j Hj. lia.
    + apply list_lookup_insert_eq. lia.
Qed.

Lemma tokenize_shape a theCommand a' n :
  tokenize a theCommand = Some (a', n) ->
  length a' = length a /\ (n < length a)%nat /\
  (forall j, (j < n)%nat -> exists t, a' !! j = Some (Some t) /\ t <> "") /\
  a' !! n = Some NULL.
Proof.
  intros H. apply tokenize_loop_shape in H; [|simpl; lia].
  destruct H as (Hl & Hn & _ & Hmid & Hend).
  split; [exact Hl|]. split; [lia|]. split; [|exact Hend].
  intros j Hj. apply Hmid. lia.
Qed.

(** The argument vector of an array that holds tokens and then [NULL]. *)
Lemma argv_tokens toks (rest : list cptr) :
  argv ((Some <$> toks) ++ NULL :: rest)%list = toks.
Proof.
  induction toks as [|t toks IH]; [reflexivity|].
  change (t :: argv ((Some <$> toks) ++ NULL :: rest)%list = t :: toks).
  f_equal. exact IH.
Qed.

Lemma tokens_of_take (a : list cptr) n toks :
  take n a = Some <$> toks -> a !! n = Some NULL ->
  a = ((Some <$> toks) ++ NULL :: drop (S n) a)%list /\ length toks = n.
Proof.
  intros Ht Hn. pose proof (lookup_lt_Some _ _ _ Hn) as Hlt.
  split.
  - rewrite <- Ht. rewrite <- (take_drop n a) at 1. f_equal.
    apply drop_S. exact Hn.
  - apply (f_equal length) in Ht. rewrite length_take, length_fmap in Ht. lia.
Qed.

Lemma argv_of_take (a : list cptr) n toks :
  take n a = Some <$> toks -> a !! n = Some NULL -> argv a = toks.
Proof.
  intros Ht Hn. destruct (tokens_of_take a n toks Ht Hn) as [-> _].
  apply argv_tokens.
Qed.

(** ** The scan for the operator *)

Lemma operator_cases t :
  operator t = (if streq t "<" then Some InputRedirect
                else if streq t ">" then Some OutputRedirect
                else if streq t "|" then Some Pipe else None).
Proof. reflexivity. Qed.

Lemma find_special_spec turns a i :
  (forall j, (i <= j < i + turns)%nat -> exists t, a !! j = Some (Some t)) ->
  exists sp, find_special turns a i = Some sp /\ one_flag sp /\
    (first_operator a i (i + turns) sp \/
     (no_operator a i (i + turns) sp /\ opIndex sp = (i + turns)%nat)).
Proof.
  revert i. induction turns as [|turns IH]; intros i Htok; simpl.
  - eexists. split; [reflexivity|]. split; [left; auto|].
    right. split; [|simpl; lia]. split; [reflexivity|]. intros j t Hj. lia.
  - destruct (Htok i ltac:(lia)) as [t Ht]. rewrite Ht.
    assert (Hop := operator_cases t).
    destruct (streq t "<") eqn:E1; [|destruct (streq t ">") eqn:E2;
      [|destruct (streq t "|") eqn:E3]].
    1-3: eexists; (split; [reflexivity|]); (split; [unfold one_flag; simpl; tauto|]);
         left; (split; [simpl; lia|]); (split; [exists t; split; [exact Ht|exact Hop]|]);
         simpl; intros j t' Hj; lia.
    destruct (IH (S i)) as (sp & Hsp & Hflag & Hchar).
    { intros j Hj. apply Htok. lia. }
    exists sp. split; [exact Hsp|]. split; [exact Hflag|].
    replace (i + S turns)%nat with (S i + turns)%nat by lia.
    destruct Hchar as [(Hi & Hat & Hbefore)|[[Hc Hnone] Hidx]]; [left|right].
    + split; [lia|]. split; [exact Hat|].
      intros j t' Hj Hjt. destruct (decide (j = i)) as [->|Hne].
      * rewrite Ht in Hjt. injection Hjt as <-. exact Hop.
      * apply (Hbefore j); [lia|exact Hjt].
    + split; [|exact Hidx]. split; [exact Hc|].
      intros j t' Hj Hjt. destruct (decide (j = i)) as [->|Hne].
      * rewrite Ht in Hjt. injection Hjt as <-. exact Hop.
      * apply (Hnone j); [lia|exact Hjt].
Qed.

(** ** The last character of a line *)

Lemma strlen_app s1 s2 : strlen (s1 ++ s2) = (strlen s1 + strlen s2)%nat.
Proof. unfold strlen. induction s1 as [|c s1 IH]; simpl; [reflexivity|]. rewrite IH. reflexivity. Qed.

Lemma string_snoc s : s <> "" -> exists s' c, s = s' ++ String c "".
Proof.
  induction s as [|c s IH]; [congruence|]. intros _.
  destruct s as [|d s].
  - exists "", c. reflexivity.
  - destruct IH as (s' & e & IH); [discriminate|].
    exists (String c s'), e. rewrite IH. reflexivity.
Qed.

Lemma last_char_snoc s c : last_char (s ++ String c "") = Some c.
Proof.
  unfold last_char. rewrite strlen_app. simpl.
  replace (strlen s + 1)%nat with (S (strlen s)) by lia.
  unfold char_at, strlen. induction s as [|d s IH]; simpl; [reflexivity|exact IH].
Qed.

Lemma chop_last_snoc s c : chop_last (s ++ String c "") = Some s.
Proof.
  unfold chop_last. rewrite strlen_app. simpl.
  replace (strlen s + 1)%nat with (S (strlen s)) by lia.
  unfold set_nul, strlen. f_equal.
  induction s as [|d s IH]; simpl; [reflexivity|]. rewrite IH. reflexivity.
Qed.

Lemma background_snoc s c :
  background (s ++ String c "") =
  Some (if Ascii.eqb c "&"%char then (1, s) else (0, s ++ String c "")).
Proof.
  unfold background. rewrite last_char_snoc. simpl.
  destruct (Ascii.eqb c "&"%char); simpl; [|reflexivity].
  rewrite chop_last_snoc. reflexivity.
Qed.

Lemma background_total s :
  s <> "" ->
  exists bg s', background s = Some (bg, s') /\ (strlen s' <= strlen s)%nat.
Proof.
  intros Hs. destruct (string_snoc s Hs) as (s' & c & ->).
  rewrite background_snoc.
  destruct (Ascii.eqb c "&"%char); eexists _, _; (split; [reflexivity|]);
    rewrite ?strlen_app; simpl; lia.
Qed.

Lemma interpret_total a0 line :
  length a0 = argSize -> line <> "" -> (strlen line <= MAX_LINE - 1)%nat ->
  exists p, interpret a0 line = Some p /\
    length (p_args p) = argSize /\ (numArgs p < argSize)%nat /\
    (forall j, (j < numArgs p)%nat ->
       exists t, p_args p !! j = Some (Some t) /\ t <> "") /\
    p_args p !! numArgs p = Some NULL /\
    scan_special (p_args p) (numArgs p) = Some (found p).
Proof.
  intros Ha Hne Hlen. unfold interpret.
  destruct (background_total line Hne) as (bg & cmd & -> & Hcmd). simpl.
  destruct (tokenize_loop_fits (length a0) a0 0 cmd) as (a & n & Htok & _).
  { rewrite Ha. unfold argSize, MAX_LINE in *. simpl in *. lia. }
  unfold tokenize at 1. rewrite Htok. simpl.
  apply tokenize_shape in Htok as (Hl & Hn & Htoks & Hend).
  destruct (find_special_spec (n - 1) a 1) as (sp & Hsp & _).
  { intros j Hj. destruct (Htoks j ltac:(lia)) as (t & Ht & _). eauto. }
  unfold scan_special at 1. rewrite Hsp. simpl.
  eexists. split; [reflexivity|]. simpl.
  rewrite Hl, Ha in *. auto.
Qed.

(** ** The capacity of [args] *)

(** C10: a line of at most [MAX_LINE - 1 = 79] characters is cut into at most
    40 tokens, so the tokens and the [NULL] after them fit in the
    [MAX_LINE / 2 + 1 = 41] slots of [args]: the tokenising loop never
    stores outside the array. *)
Theorem tokenize_within_args (a : list cptr) (theCommand : string) :
  length a = argSize ->
  (strlen theCommand <= MAX_LINE - 1)%nat ->
  exists a' n,
    tokenize a theCommand = Some (a', n) /\
    (n <= 40)%nat /\ (n + 1 <= argSize)%nat /\
    length a' = argSize /\
    (forall j, (j < n)%nat -> exists t, a' !! j = Some (Some t) /\ t <> "") /\
    a' !! n = Some NULL.
Proof.
  intros Ha Hlen.
  destruct (tokenize_loop_fits (length a) a 0 theCommand) as (a' & n & Htok & Hn).
  { rewrite Ha. unfold argSize, MAX_LINE in *. simpl in *. lia. }
  exists a', n. split; [exact Htok|].
  apply tokenize_shape in Htok as (Hl & _ & Htoks & Hend).
  unfold argSize, MAX_LINE in *. simpl in *.
  repeat split; try lia; try assumption; congruence.
Qed.

Lemma tokenize_within_args_witness :
  exists a' n,
    tokenize (replicate argSize NULL) full_line = Some (a', n) /\
    (n <= 40)%nat /\ (n + 1 <= argSize)%nat /\
    length a' = argSize /\
    (forall j, (j < n)%nat -> exists t, a' !! j = Some (Some t) /\ t <> "") /\
    a' !! n = Some NULL.
Proof.
  apply (tokenize_within_args (replicate argSize NULL) full_line).
  - reflexivity.
  - vm_compute. lia.
Defined.

(** The bound is reached, and one more token would not fit. *)
Example tokenize_full_line :
  strlen full_line = 79%nat /\
  snd <$> tokenize (replicate argSize NULL) full_line = Some 40%nat /\
  tokenize (replicate argSize NULL) (full_line ++ " a") = None.
Proof. vm_compute. auto. Qed.

(** ** The classification of a line *)

(** The tokenising loop against the words of the line. *)
Lemma spec_fields_cut_token s t r :
  cut_token s = (t, r) ->
  spec_fields s = t :: spec_fields r \/ (spec_fields s = [t] /\ r = "").
Proof.
  revert t r. induction s as [|c s IH]; intros t r; simpl.
  - intros [= <- <-]. right. split; reflexivity.
  - unfold is_delim. destruct (Ascii.eqb c " "%char).
    + intros [= <- <-]. left. reflexivity.
    + destruct (cut_token s) as [t' r'] eqn:Ec. intros [= <- <-].
      destruct (IH _ _ eq_refl) as [->|[-> ->]]; [left|right; split];
        reflexivity.
Qed.

Lemma spec_words_skip_delims s : spec_words (skip_delims s) = spec_words s.
Proof.
  unfold spec_words. induction s as [|c s IH]; [reflexivity|].
  cbn [skip_delims]. unfold is_delim.
  destruct (Ascii.eqb c " "%char) eqn:E; [|reflexivity].
  cbn [spec_fields]. rewrite E. exact IH.
Qed.

Lemma strtok_spec_words s :
  match strtok s with
  | Some (t, r) => spec_words s = t :: spec_words r
  | None => spec_words s = []
  end.
Proof.
  unfold strtok. rewrite <- (spec_words_skip_delims s).
  destruct (skip_delims s) as [|c s'] eqn:E; [reflexivity|].
  apply skip_delims_head in E.
  destruct (cut_token (String c s')) as [t r] eqn:Ec.
  assert (Ht : String.eqb t "" = false).
  { simpl in Ec. rewrite E in Ec. destruct (cut_token s').
    injection Ec as <- _. reflexivity. }
  unfold spec_words.
  destruct (spec_fields_cut_token _ _ _ Ec) as [->|[-> ->]];
    simpl; rewrite Ht; reflexivity.
Qed.

Lemma tokenize_loop_spec room a k saved a' n :
  tokenize_loop room a k saved = Some (a', n) ->
  (k + room <= length a)%nat ->
  n = (k + length (spec_words saved))%nat /\
  take n a' = (take k a ++ (Some <$> spec_words saved))%list.
Proof.
  revert a k saved. induction room as [|room IH]; intros a k saved;
    [discriminate|].
  simpl. pose proof (strtok_spec_words saved) as Hw.
  destruct (strtok saved) as [[t r]|].
  - intros H Hk. apply IH in H; [|rewrite length_insert; lia].
    destruct H as [-> Htake]. rewrite Hw. split; [simpl; lia|].
    rewrite Htake. rewrite (take_S_r _ _ (Some t))
      by (apply list_lookup_insert_eq; lia).
    rewrite take_insert_ge by lia. rewrite <- app_assoc. reflexivity.
  - intros [= <- <-] Hk. rewrite Hw. split; [simpl; lia|].
    rewrite take_insert_ge by lia. simpl. rewrite app_nil_r. reflexivity.
Qed.

Lemma tokenize_spec a line a' n :
  tokenize a line = Some (a', n) ->
  n = length (spec_words line) /\
  a' = ((Some <$> spec_words line) ++ NULL :: drop (S n) a')%list.
Proof.
  intros H. pose proof (tokenize_shape _ _ _ _ H) as (_ & _ & _ & Hend).
  apply tokenize_loop_spec in H; [|simpl; lia].
  destruct H as [Hn Htake]. simpl in Hn, Htake.
  destruct (tokens_of_take a' n (spec_words line) Htake Hend) as [Ha Hl].
  split; [symmetry; exact Hl|exact Ha].
Qed.

Lemma spec_command_snoc s c :
  spec_command (s ++ String c "") =
  if Ascii.eqb c "&"%char then s else s ++ String c "".
Proof.
  induction s as [|d s IH]; [reflexivity|].
  change (String d s ++ String c "") with (String d (s ++ String c "")).
  cbn [spec_command]. rewrite IH.
  destruct s; destruct (Ascii.eqb c "&"%char); reflexivity.
Qed.

(** The scan of [main] against the scan of the specification, on an array
    that holds the tokens [l] from slot [i] on. *)
Lemma find_special_scan (l : list string) (a : list cptr) (i : nat) :
  (forall k t, l !! k = Some t -> a !! (i + k)%nat = Some (Some t)) ->
  exists sp, find_special (length l) a i = Some sp /\
    match spec_scan l i with
    | Some (c, j) => classify sp = c /\ opIndex sp = j
    | None => classify sp = Plain
    end.
Proof.
  revert i. induction l as [|t l IH]; intros i Ha; simpl.
  - eexists. split; reflexivity.
  - pose proof (Ha 0%nat t eq_refl) as H0. rewrite Nat.add_0_r in H0.
    rewrite H0. unfold operator.
    destruct (streq t "<"); [eexists; repeat split; reflexivity|].
    destruct (streq t ">"); [eexists; repeat split; reflexivity|].
    destruct (streq t "|"); [eexists; repeat split; reflexivity|].
    apply IH. intros k t' Hk.
    replace (S i + k)%nat with (i + S k)%nat by lia. apply Ha. exact Hk.
Qed.

Lemma interpret_spec a line p :
  interpret a line = Some p ->
  numArgs p = length (spec_tokens line) /\
  p_args p = ((Some <$> spec_tokens line) ++ NULL
              :: drop (S (numArgs p)) (p_args p))%list /\
  match spec_first_operator (spec_tokens line) with
  | Some (c, i) => classify (found p) = c /\ opIndex (found p) = i
  | None => classify (found p) = Plain
  end.
Proof.
  destruct (String.eqb_spec line "") as [->|Hne]; [discriminate|].
  destruct (string_snoc line Hne) as (s & c & ->).
  unfold interpret, spec_tokens. rewrite background_snoc, spec_command_snoc.
  set (cmd := if Ascii.eqb c "&"%char then s else s ++ String c "").
  assert (Hrun : forall bg,
            ('(a', n) ← tokenize a cmd; sp ← scan_special a' n;
             Some (Parsed bg a' n sp)) = Some p ->
            numArgs p = length (spec_words cmd) /\
            p_args p = ((Some <$> spec_words cmd) ++ NULL
                        :: drop (S (numArgs p)) (p_args p))%list /\
            match spec_first_operator (spec_words cmd) with
            | Some (c, i) => classify (found p) = c /\ opIndex (found p) = i
            | None => classify (found p) = Plain
            end).
  { intros bg. destruct (tokenize a cmd) as [[a' n]|] eqn:E; [|discriminate].
    cbn. destruct (scan_special a' n) as [sp|] eqn:Es; [|discriminate].
    intros [= <-]. cbn.
    destruct (tokenize_spec _ _ _ _ E) as [Hn Ha].
    split; [exact Hn|]. split; [exact Ha|].
    destruct (find_special_scan (tail (spec_words cmd)) a' 1)
      as (sp' & Hsp & Hscan).
    { intros k t Hk. rewrite lookup_tail in Hk. rewrite Ha.
      rewrite lookup_app_l
        by (rewrite length_fmap; apply lookup_lt_Some in Hk; exact Hk).
      rewrite list_lookup_fmap. cbn. rewrite Hk. reflexivity. }
    unfold scan_special in Es.
    replace (length (tail (spec_words cmd))) with (n - 1)%nat in Hsp
      by (rewrite Hn; destruct (spec_words cmd); simpl; lia).
    rewrite Hsp in Es. injection Es as <-. exact Hscan. }
  unfold cmd in *. destruct (Ascii.eqb c "&"%char); cbn; apply Hrun.
Qed.

(** C1: a line that is not empty is given exactly one classification.  The
    interpreter leaves in [args] the words of the line (taken without a
    final [&]), then [NULL], and counts them in [numArgs]; the flags never
    select two branches; the classification is that of the first token
    equal to [<], [>] or [|] among [args[1]] ... [args[numArgs-1]]
    ([args[0]] is not looked at), with [i] left at its index, and it is
    [Plain] when there is no such token: what the scan of the specification
    gives on the words of the line. *)
Theorem classification_first_operator (a0 : list cptr) (line : string) :
  length a0 = argSize ->
  line <> "" -> (strlen line <= MAX_LINE - 1)%nat ->
  exists p,
    interpret a0 line = Some p /\
    numArgs p = length (spec_tokens line) /\
    (exists rest,
       p_args p = ((Some <$> spec_tokens line) ++ NULL :: rest)%list) /\
    argv (p_args p) = spec_tokens line /\
    one_flag (found p) /\
    (first_operator (p_args p) 1 (numArgs p) (found p) \/
     no_operator (p_args p) 1 (numArgs p) (found p)) /\
    match spec_first_operator (spec_tokens line) with
    | Some (c, i) => classify (found p) = c /\ opIndex (found p) = i
    | None => classify (found p) = Plain
    end.
Proof.
  intros Ha Hne Hlen.
  destruct (interpret_total a0 line Ha Hne Hlen)
    as (p & Hp & _ & _ & Htoks & _ & Hscan).
  exists p. split; [exact Hp|].
  destruct (interpret_spec _ _ _ Hp) as (Hn & Hargs & Hspec).
  split; [exact Hn|]. split; [eexists; exact Hargs|].
  split; [rewrite Hargs; apply argv_tokens|].
  destruct (find_special_spec (numArgs p - 1) (p_args p) 1)
    as (sp & Hsp & Hflag & Hchar).
  { intros j Hj. destruct (Htoks j ltac:(lia)) as (t & Ht & _). eauto. }
  unfold scan_special in Hscan. rewrite Hsp in Hscan. injection Hscan as ->.
  split; [exact Hflag|]. split; [|exact Hspec].
  destruct Hchar as [(Hi & Hat & Hbefore)|[[Hc Hnone] _]]; [left|right].
  - split; [lia|]. split; [exact Hat|exact Hbefore].
  - split; [exact Hc|]. intros j t Hj. apply Hnone. lia.
Qed.

(** [cat < in > out | wc &]: three operators after the command, and the
    first of them decides; the final [&] is not a token. *)
Lemma classification_first_operator_witness :
  spec_tokens "cat < in > out | wc &" =
    ["cat"; "<"; "in"; ">"; "out"; "|"; "wc"] /\
  spec_first_operator (spec_tokens "cat < in > out | wc &") =
    Some (InputRedirect, 1%nat) /\
  exists p,
    interpret (replicate argSize NULL) "cat < in > out | wc &" = Some p /\
    numArgs p = length (spec_tokens "cat < in > out | wc &") /\
    (exists rest,
       p_args p = ((Some <$> spec_tokens "cat < in > out | wc &")
                   ++ NULL :: rest)%list) /\
    argv (p_args p) = spec_tokens "cat < in > out | wc &" /\
    one_flag (found p) /\
    (first_operator (p_args p) 1 (numArgs p) (found p) \/
     no_operator (p_args p) 1 (numArgs p) (found p)) /\
    match spec_first_operator (spec_tokens "cat < in > out | wc &") with
    | Some (c, i) => classify (found p) = c /\ opIndex (found p) = i
    | None => classify (found p) = Plain
    end.
Proof.
  split; [reflexivity|]. split; [reflexivity|].
  apply (classification_first_operator (replicate argSize NULL)
           "cat < in > out | wc &").
  - reflexivity.
  - discriminate.
  - vm_compute. lia.
Defined.

(** The first operator wins, and a leading operator is the command name. *)
Example classification_examples :
  (fun p => (classify (found p), opIndex (found p)))
    <$> interpret (replicate argSize NULL) "cat < in > out | wc"
  = Some (InputRedirect, 1%nat) /\
  (fun p => (classify (found p), opIndex (found p)))
    <$> interpret (replicate argSize NULL) "ls -l | wc > out"
  = Some (Pipe, 2%nat) /\
  (fun p => classify (found p))
    <$> interpret (replicate argSize NULL) "| wc"
  = Some Plain /\
  (fun p => classify (found p))
    <$> interpret (replicate argSize NULL) "ls -l"
  = Some Plain.
Proof. vm_compute. auto. Qed.

(** ** The background flag *)

(** C8: when the last character of the line is [&] the background flag is 1
    and the line is tokenised without that character; otherwise the flag is
    0 and the line is tokenised as it is.  ["sleep 1 &"] gives the argument
    vector [sleep; 1] with the flag raised, ["sleep 1"] the same vector
    without it. *)
Theorem background_flag :
  (forall s c,
     background (s ++ String c "") =
     Some (if Ascii.eqb c "&"%char then (1, s) else (0, s ++ String c ""))) /\
  (forall a s,
     interpret a (s ++ "&") =
     '(a', n) ← tokenize a s; sp ← scan_special a' n;
     Some (Parsed 1 a' n sp)) /\
  (forall a s c, c <> "&"%char ->
     interpret a (s ++ String c "") =
     '(a', n) ← tokenize a (s ++ String c ""); sp ← scan_special a' n;
     Some (Parsed 0 a' n sp)) /\
  (fun p => (bgProcess p, argv (p_args p), numArgs p))
    <$> interpret (replicate argSize NULL) "sleep 1 &"
  = Some (1, ["sleep"; "1"], 2%nat) /\
  (fun p => (bgProcess p, argv (p_args p), numArgs p))
    <$> interpret (replicate argSize NULL) "sleep 1"
  = Some (0, ["sleep"; "1"], 2%nat).
Proof.
  split; [exact background_snoc|]. split; [|split; [|split]].
  - intros a s. unfold interpret. rewrite background_snoc. reflexivity.
  - intros a s c Hc. unfold interpret. rewrite background_snoc.
    destruct (Ascii.eqb_spec c "&"%char); [contradiction|reflexivity].
  - vm_compute. reflexivity.
  - vm_compute. reflexivity.
Qed.

(** ["sleep 1"]: the last character is not [&]. *)
Lemma background_flag_witness :
  interpret (replicate argSize NULL) ("sleep " ++ String "1"%char "") =
  '(a', n) ← tokenize (replicate argSize NULL) ("sleep " ++ String "1"%char "");
  sp ← scan_special a' n;
  Some (Parsed 0 a' n sp).
Proof.
  apply (proj1 (proj2 (proj2 background_flag))
           (replicate argSize NULL) "sleep " "1"%char).
  discriminate.
Defined.

(** ** The pipe split *)

Lemma store_Some (a : list cptr) k v :
  (k < length a)%nat -> store a k v = Some (<[k:=v]> a).
Proof. intros H. unfold store. destruct (decide (k < length a)%nat); [reflexivity|lia]. Qed.

Lemma copy_loop_spec turns (dst src : list cptr) j off :
  (j + turns <= length dst)%nat ->
  (j + turns + off <= length src)%nat ->
  exists dst', copy_loop turns dst src j off = Some dst' /\
    length dst' = length dst /\
    (forall x, (j <= x < j + turns)%nat -> dst' !! x = src !! (x + off)%nat) /\
    (forall x, ~ (j <= x < j + turns)%nat -> dst' !! x = dst !! x).
Proof.
  revert dst j. induction turns as [|turns IH]; intros dst j Hd Hs; simpl.
  - exists dst. split; [reflexivity|]. split; [reflexivity|].
    split; [intros x Hx; lia|reflexivity].
  - destruct (lookup_lt_is_Some_2 src (j + off)%nat ltac:(lia)) as [v Hv].
    rewrite Hv, store_Some by lia.
    destruct (IH (<[j:=v]> dst) (S j)) as (dst' & -> & Hl & Hin & Hout).
    { rewrite length_insert. lia. } { lia. }
    rewrite length_insert in Hl.
    exists dst'. split; [reflexivity|]. split; [exact Hl|]. split.
    + intros x Hx. destruct (decide (x = j)) as [->|Hne].
      * rewrite Hout by lia. rewrite list_lookup_insert_eq by lia. symmetry; exact Hv.
      * apply Hin. lia.
    + intros x Hx. rewrite Hout by lia. apply list_lookup_insert_ne. lia.
Qed.

Lemma length_vla n junk : length (vla n junk) = n.
Proof. unfold vla. rewrite length_fmap, length_seq. reflexivity. Qed.

(** C2: when [args] holds the tokens [toks] followed by [NULL], the pipe
    case at index [i] makes [firstCommand] the tokens before [i] followed by
    [NULL], and [secondCommand] the tokens after [i] followed by [NULL],
    whatever the two arrays held before. *)
Theorem split_pipe_spec (junk1 junk2 : nat -> cptr) (toks : list string)
    (rest : list cptr) (i : nat) :
  (i < length toks)%nat ->
  split_pipe junk1 junk2 ((Some <$> toks) ++ NULL :: rest)%list (length toks) i =
  Some (((Some <$> take i toks) ++ [NULL])%list,
        ((Some <$> drop (S i) toks) ++ [NULL])%list).
Proof.
  intros Hi. unfold split_pipe.
  set (a := ((Some <$> toks) ++ NULL :: rest)%list).
  assert (Ha : forall x, (x < length toks)%nat -> a !! x = Some <$> toks !! x).
  { intros x Hx. unfold a. rewrite lookup_app_l by (rewrite length_fmap; lia).
    apply list_lookup_fmap. }
  assert (Hla : (length toks < length a)%nat).
  { unfold a. rewrite length_app, length_fmap. simpl. lia. }
  destruct (copy_loop_spec i (vla (i + 1) junk1) a 0 0) as (f & -> & Hfl & Hf & _).
  { rewrite length_vla. lia. } { lia. }
  rewrite length_vla in Hfl. simpl.
  rewrite store_Some by lia. simpl.
  destruct (copy_loop_spec (length toks - i - 1) (vla (length toks - i) junk2) a 0 (i + 1))
    as (g & -> & Hgl & Hg & _).
  { rewrite length_vla. lia. } { lia. }
  rewrite length_vla in Hgl. simpl.
  rewrite store_Some by lia. simpl.
  f_equal. f_equal.
  - apply list_eq. intros x.
    destruct (decide (x < i)%nat) as [Hx|Hx].
    + rewrite list_lookup_insert_ne by lia.
      rewrite Hf by lia. rewrite Nat.add_0_r, Ha by lia.
      rewrite lookup_app_l by (rewrite length_fmap, length_take; lia).
      rewrite list_lookup_fmap, lookup_take_lt by lia. reflexivity.
    + destruct (decide (x = i)) as [->|Hne].
      * rewrite list_lookup_insert_eq by lia.
        rewrite lookup_app_r by (rewrite length_fmap, length_take; lia).
        rewrite length_fmap, length_take.
        replace (i - i `min` length toks)%nat with 0%nat by lia. reflexivity.
      * rewrite !lookup_ge_None_2; [reflexivity| |].
        -- rewrite length_app, length_fmap, length_take. simpl. lia.
        -- rewrite length_insert. lia.
  - apply list_eq. intros x.
    destruct (decide (x < length toks - i - 1)%nat) as [Hx|Hx].
    + rewrite list_lookup_insert_ne by lia.
      rewrite Hg by lia. rewrite Ha by lia.
      rewrite lookup_app_l by (rewrite length_fmap, length_drop; lia).
      rewrite list_lookup_fmap, lookup_drop. do 2 f_equal. lia.
    + destruct (decide (x = length toks - i - 1)%nat) as [->|Hne].
      * rewrite list_lookup_insert_eq by lia.
        rewrite lookup_app_r by (rewrite length_fmap, length_drop; lia).
        rewrite length_fmap, length_drop.
        replace (length toks - i - 1 - (length toks - S i))%nat with 0%nat by lia.
        reflexivity.
      * rewrite !lookup_ge_None_2; [reflexivity| |].
        -- rewrite length_app, length_fmap, length_drop. simpl. lia.
        -- rewrite length_insert. lia.
Qed.

(** ["ls -l | wc -l"]: the pipe is at index 2. *)
Lemma split_pipe_spec_witness :
  split_pipe (fun _ => Some "junk") (fun _ => Some "junk")
    [Some "ls"; Some "-l"; Some "|"; Some "wc"; Some "-l"; NULL; Some "old"]
    5 2 =
  Some ([Some "ls"; Some "-l"; NULL], [Some "wc"; Some "-l"; NULL]).
Proof.
  apply (split_pipe_spec (fun _ => Some "junk") (fun _ => Some "junk")
           ["ls"; "-l"; "|"; "wc"; "-l"] [Some "old"] 2).
  simpl. lia.
Defined.

(** ** Executions of the loop body *)

Lemma after_each_split P Q tr :
  after_each P Q tr ->
  forall pre e post, tr = (pre ++ e :: post)%list -> P e = true -> Q post.
Proof.
  intros H pre. revert tr H. induction pre as [|x pre IH]; intros tr H e post ->.
  - simpl in H. tauto.
  - simpl in H. apply (IH _ (proj2 H)). reflexivity.
Qed.

(** C9: when an [execvp] comes back (it only does so having failed), the
    process that called it reports ["Exec failed"] and calls [exit(1)] at
    once: nothing else follows in its execution.  The process that remains
    the shell (no [fork] gave it 0) calls no [execvp] and never exits; once
    it has called [fork], whatever becomes of the child, it makes at most
    one more call, the [wait] for the child or the report ["Fork failed"],
    and is back at the head of the loop with [should_run] as it was: it
    does not run into undefined behaviour, and the one call it may block in
    is the [wait], which comes back when the child has ended, as the child
    whose [execvp] failed has. *)
Theorem exec_failure_exits (junk1 junk2 : nat -> cptr) (st : shell)
    (tr : list event) (o : outcome shell) :
  exec (iteration junk1 junk2 st) tr o ->
  (forall pre e post,
     tr = (pre ++ e :: post)%list -> is_failed_exec e = true ->
     post = [Ev (perror "Exec failed") tt] /\ o = Exited 1) /\
  ((forall e, In e tr -> fork_result e <> Some 0) ->
   (forall e, In e tr -> is_execvp e = false) /\
   (forall n, o <> Exited n) /\
   (forall pre e post,
      tr = (pre ++ e :: post)%list -> is_fork e = true ->
      (post = [] \/ (exists r, post = [Ev wait r]) \/
       post = [Ev (perror "Fork failed") tt]) /\
      exists st', o = Returned st' /\ should_run st' = should_run st)).
Proof.
  intros H. split.
  - apply after_each_split. unfold_main H. exec_all H;
      cbn [after_each is_failed_exec]; repeat split;
      try discriminate; try reflexivity.
  - unfold_main H. exec_all H; intros Hf;
      try (exfalso; apply (Hf (Ev fork 0)); [in_list|reflexivity]);
      (split; [|split; [discriminate|]]);
      try (intros e He; simpl in He;
           repeat (destruct He as [<-|He]; [reflexivity|]); contradiction);
      apply after_each_split; cbn [after_each is_fork];
      repeat split; try discriminate; intros;
      first [left; reflexivity
            |right; left; eexists; reflexivity
            |right; right; reflexivity
            |eexists; split; reflexivity].
Qed.

(** [nosuch], seen from the child whose [execvp] fails, and from the shell
    that waits for it. *)
Lemma exec_failure_exits_witness :
  let tr := [Ev (printf "osh> ") tt; Ev fflush_stdout tt;
             Ev fgets_stdin (Some ("nosuch" ++ nl)); Ev fork 0;
             Ev (execvp (Some "nosuch") (Some "nosuch" :: replicate 40 NULL))
                (-1);
             Ev (perror "Exec failed") tt] in
  let pre := [Ev (printf "osh> ") tt; Ev fflush_stdout tt;
              Ev fgets_stdin (Some ("nosuch" ++ nl))] in
  let st' := Shell 1 (Some "nosuch" :: replicate 40 NULL) "nosuch" in
  (exec (iteration no_junk no_junk fresh_shell) tr (Exited 1) /\
   forall pre e post,
     tr = (pre ++ e :: post)%list -> is_failed_exec e = true ->
     post = [Ev (perror "Exec failed") tt] /\ @Exited shell 1 = Exited 1) /\
  (exec (iteration no_junk no_junk fresh_shell)
     (pre ++ [Ev fork 7; Ev wait 7]) (Returned st') /\
   ([Ev wait 7] = [] \/ (exists r, [Ev wait 7] = [Ev wait r]) \/
    [Ev wait 7] = [Ev (perror "Fork failed") tt]) /\
   exists st'', Returned st' = Returned st'' /\
                should_run st'' = should_run fresh_shell).
Proof.
  intros tr pre st'.
  assert (H : exec (iteration no_junk no_junk fresh_shell) tr (Exited 1)).
  { unfold tr. exec_run. }
  assert (H' : exec (iteration no_junk no_junk fresh_shell)
                 (pre ++ [Ev fork 7; Ev wait 7]) (Returned st')).
  { unfold pre. exec_run. }
  split; (split; [assumption|]).
  - exact (proj1 (exec_failure_exits no_junk no_junk fresh_shell tr
                    (Exited 1) H)).
  - refine (proj2 (proj2 (proj2 (exec_failure_exits no_junk no_junk
                    fresh_shell _ _ H') _))
              pre (Ev fork 7) [Ev wait 7] eq_refl eq_refl).
    intros e He. simpl in He.
    repeat (destruct He as [<-|He]; [discriminate|]). contradiction.
Defined.

(** ** The history slot *)

Lemma iteration_history junk1 junk2 st tr o st' :
  exec (iteration junk1 junk2 st) tr o -> o = Returned st' ->
  exists l, entered tr = [l] /\
            history st' = (if is_command l then l else history st).
Proof.
  intros H Ho. unfold_main H. exec_all H; try discriminate Ho;
    injection Ho as <-;
    unfold entered; cbn [omap list_omap entered_line];
    match goal with E : chop_last _ = Some _ |- _ => rewrite E end;
    eexists; (split; [reflexivity|]); unfold is_command;
    repeat match goal with E : streq _ _ = _ |- _ => rewrite E; clear E end;
    cbn [negb andb history]; reflexivity.
Qed.

Lemma entered_app tr1 tr2 :
  entered (tr1 ++ tr2) = (entered tr1 ++ entered tr2)%list.
Proof. apply omap_app. Qed.

Lemma last_cons_default {A} (x : A) (l : list A) :
  last (x :: l) = Some (default x (last l)).
Proof.
  revert x. induction l as [|y l IH]; intros x; [reflexivity|].
  rewrite last_cons_cons. rewrite IH. reflexivity.
Qed.

Lemma loop_history junk1 junk2 st tr st' :
  loop junk1 junk2 st tr st' ->
  history st' = default (history st) (most_recent_command (entered tr)).
Proof.
  unfold most_recent_command.
  induction 1 as [st|st tr1 st1 tr2 st2 Hrun Hturn Hloop IH]; [reflexivity|].
  destruct (iteration_history _ _ _ _ _ _ Hturn eq_refl) as (l & Hl & Hh).
  rewrite entered_app, Hl. simpl.
  rewrite IH, Hh. destruct (is_command l); [|reflexivity].
  rewrite last_cons_default. reflexivity.
Qed.

Lemma recall_without_history junk1 junk2 st tr o :
  exec (iteration junk1 junk2 st) tr o ->
  entered tr = ["!!"] -> history st = "" ->
  (exists line,
     tr = [Ev (printf "osh> ") tt; Ev fflush_stdout tt; Ev fgets_stdin (Some line);
           Ev (printf ("No command in history." ++ nl)) tt]) /\
  o = Returned st.
Proof.
  intros H Hent Hh. unfold iteration in H. exec_all H;
    unfold entered in Hent; cbn [omap list_omap entered_line] in Hent;
    try match goal with E : chop_last _ = _ |- _ => rewrite E in Hent end;
    cbn [omap list_omap] in Hent; try discriminate Hent;
    injection Hent; intros; subst;
    try match goal with
        | E : streq (history _) _ = _ |- _ => rewrite Hh in E
        end;
    try discriminate.
  split; [eexists; reflexivity|reflexivity].
Qed.

(** C3: however many turns the loop has made since the shell started, the
    history slot holds the most recently entered line that is not empty,
    not [exit] and not [!!] (and is empty while there has been none); a turn
    that reads [!!] leaves the slot as it was; and a turn that reads [!!]
    with an empty slot prints ["No command in history."] and goes back to
    the prompt without a [fork]. *)
Theorem history_slot (junk1 junk2 : nat -> cptr) :
  (forall junk tr st,
     loop junk1 junk2 (initial junk) tr st ->
     history st = default "" (most_recent_command (entered tr))) /\
  (forall st tr o st',
     exec (iteration junk1 junk2 st) tr o -> entered tr = ["!!"] ->
     o = Returned st' -> history st' = history st) /\
  (forall st tr o,
     exec (iteration junk1 junk2 st) tr o -> entered tr = ["!!"] ->
     history st = "" ->
     (exists line,
        tr = [Ev (printf "osh> ") tt; Ev fflush_stdout tt;
              Ev fgets_stdin (Some line);
              Ev (printf ("No command in history." ++ nl)) tt]) /\
     o = Returned st /\
     forall e, In e tr -> is_fork e = false).
Proof.
  split; [|split].
  - intros junk tr st H. apply loop_history in H. exact H.
  - intros st tr o st' H Hent Ho.
    destruct (iteration_history _ _ _ _ _ _ H Ho) as (l & Hl & Hh).
    rewrite Hent in Hl. injection Hl as <-. exact Hh.
  - intros st tr o H Hent Hh.
    destruct (recall_without_history _ _ _ _ _ H Hent Hh) as [[line ->] ->].
    split; [eexists; reflexivity|]. split; [reflexivity|].
    intros e He. simpl in He.
    repeat (destruct He as [<-|He]; [reflexivity|]). contradiction.
Qed.


(** [ls], then [!!], then [exit], seen from the shell itself; and [!!]
    entered first. *)
Lemma history_slot_witness :
  let turn1 := [Ev (printf "osh> ") tt; Ev fflush_stdout tt;
                Ev fgets_stdin (Some ("ls" ++ nl)); Ev fork 7; Ev wait 7] in
  let turn2 := [Ev (printf "osh> ") tt; Ev fflush_stdout tt;
                Ev fgets_stdin (Some ("!!" ++ nl));
                Ev (printf ("Previous command: ls" ++ nl)) tt;
                Ev fork 8; Ev wait 8] in
  let turn3 := [Ev (printf "osh> ") tt; Ev fflush_stdout tt;
                Ev fgets_stdin (Some ("exit" ++ nl))] in
  let st := Shell 0 (Some "ls" :: replicate 40 NULL) "ls" in
  let recall := [Ev (printf "osh> ") tt; Ev fflush_stdout tt;
                 Ev fgets_stdin (Some ("!!" ++ nl));
                 Ev (printf ("No command in history." ++ nl)) tt] in
  (loop no_junk no_junk (initial no_junk) (turn1 ++ turn2 ++ turn3) st /\
   history st = default "" (most_recent_command
                              (entered (turn1 ++ turn2 ++ turn3))) /\
   history st = "ls") /\
  (exec (iteration no_junk no_junk fresh_shell) recall (Returned fresh_shell) /\
   history fresh_shell = history fresh_shell /\
   forall e, In e recall -> is_fork e = false).
Proof.
  intros turn1 turn2 turn3 st recall.
  assert (Hloop : loop no_junk no_junk (initial no_junk)
                    (turn1 ++ turn2 ++ turn3)%list st).
  { eapply loop_turn; [discriminate|unfold turn1; exec_run|].
    eapply loop_turn; [discriminate|unfold turn2; exec_run|].
    rewrite <- (app_nil_r turn3).
    eapply loop_turn; [discriminate|unfold turn3; exec_run|].
    apply loop_here. }
  assert (Hrecall : exec (iteration no_junk no_junk fresh_shell) recall
                      (Returned fresh_shell)).
  { unfold recall. exec_run. }
  split.
  - split; [exact Hloop|]. split; [|reflexivity].
    exact (proj1 (history_slot no_junk no_junk) no_junk _ _ Hloop).
  - split; [exact Hrecall|]. split.
    + exact (proj1 (proj2 (history_slot no_junk no_junk)) _ _ _ _
               Hrecall eq_refl eq_refl).
    + exact (proj2 (proj2 (proj2 (proj2 (history_slot no_junk no_junk))
               _ _ _ Hrecall eq_refl eq_refl))).
Defined.

(** ** Lines the interpreter lets through *)

(** C5: a line of one space is not treated as the empty line is.  The empty
    line goes back to the prompt; the blank line is stored in the history
    slot, tokenised into an empty argument vector, and forked for all the
    same: the shell waits for a child, and the child calls [execvp] with a
    null file name. *)
Theorem blank_line_is_dispatched :
  exec (iteration no_junk no_junk fresh_shell)
    [Ev (printf "osh> ") tt; Ev fflush_stdout tt; Ev fgets_stdin (Some nl)]
    (Returned fresh_shell) /\
  (fun p => (argv (p_args p), numArgs p))
    <$> interpret (args fresh_shell) " " = Some ([], 0%nat) /\
  exec (iteration no_junk no_junk fresh_shell)
    [Ev (printf "osh> ") tt; Ev fflush_stdout tt;
     Ev fgets_stdin (Some (" " ++ nl)); Ev fork 7; Ev wait 7]
    (Returned (Shell 1 (replicate 41 NULL) " ")) /\
  exec (iteration no_junk no_junk fresh_shell)
    [Ev (printf "osh> ") tt; Ev fflush_stdout tt;
     Ev fgets_stdin (Some (" " ++ nl)); Ev fork 0;
     Gone (execvp NULL (replicate 41 NULL))]
    Undefined.
Proof.
  split; [exec_run|]. split; [vm_compute; reflexivity|].
  split; exec_run.
Qed.

(** C4: with the operator as the last token, the slot after it is the
    [NULL] that ends the vector, and the child hands it on.  For [cat <] it
    calls [open] with a null path before it looks at the name, then reports
    and exits with status 1 whatever [open] gave; for [ls |] the second
    command is empty, and after the first stage has run the child calls
    [execvp] with a null file name. *)
Theorem operator_last_passes_null :
  (forall fd,
     exec (iteration no_junk no_junk fresh_shell)
       [Ev (printf "osh> ") tt; Ev fflush_stdout tt;
        Ev fgets_stdin (Some ("cat <" ++ nl)); Ev fork 0;
        Ev (open NULL O_RDONLY mode_0666) fd;
        Ev (perror "Input file failed") tt]
       (Exited 1)) /\
  (forall fd,
     exec (iteration no_junk no_junk fresh_shell)
       [Ev (printf "osh> ") tt; Ev fflush_stdout tt;
        Ev fgets_stdin (Some ("echo hi >" ++ nl)); Ev fork 0;
        Ev (open NULL (Z.lor (Z.lor O_WRONLY O_CREAT) O_TRUNC) mode_0666) fd;
        Ev (perror "Output file failed") tt]
       (Exited 1)) /\
  exec (iteration no_junk no_junk fresh_shell)
    [Ev (printf "osh> ") tt; Ev fflush_stdout tt;
     Ev fgets_stdin (Some ("ls |" ++ nl)); Ev fork 0;
     Ev pipe (0, (3, 4)); Ev fork 9; Ev wait 9;
     Ev (dup2 3 STDIN_FILENO) 0; Ev (close 3) 0; Ev (close 4) 0;
     Gone (execvp NULL [NULL])]
    Undefined.
Proof.
  split; [|split].
  - intros fd. exec_run. cbn [mbind proc_bind bind].
    destruct (fd =? -1); exec_run.
  - intros fd. exec_run. cbn [mbind proc_bind bind].
    destruct (fd =? -1); exec_run.
  - exec_run.
Qed.

(** ** The two stages of a pipe *)

Lemma exec_k_exec {A : Type} (p : proc A) ks tr o :
  exec_k p ks tr o -> exec p (fst <$> tr) o.
Proof.
  revert ks tr. induction p as [a|n| |R c k IH]; intros ks tr; simpl.
  - intros [-> ->]. split; reflexivity.
  - intros [-> ->]. split; reflexivity.
  - intros [-> ->]. split; reflexivity.
  - intros (ks1 & _ & [(r & ks2 & tr' & Hr & _ & -> & H)|[-> H]]).
    + left. exists r, (fst <$> tr'). split; [exact Hr|].
      split; [reflexivity|]. exact (IH r _ _ H).
    + right. split; [reflexivity|exact H].
Qed.

Lemma settled_split child tr :
  settled child tr ->
  forall pre e ks post,
    tr = (pre ++ (e, ks) :: post)%list ->
    child = true \/ (exists x, In x pre /\ is_child_fork x.1 = true) ->
    is_dup2 e || is_execvp e = true -> running ks = O.
Proof.
  intros H pre. revert child tr H.
  induction pre as [|[e0 k0] pre IH]; intros child tr H e ks post -> Hchild He.
  - simpl in H. destruct H as [H _]. apply H; [|exact He].
    destruct Hchild as [Hc|(x & [] & _)]. exact Hc.
  - simpl in H. destruct H as [_ H].
    apply (IH _ _ H e ks post eq_refl); [|exact He].
    destruct Hchild as [->|(x & [<-|Hx] & Hf)].
    + left. reflexivity.
    + left. simpl in Hf. rewrite Hf. apply orb_true_r.
    + right. exists x. split; assumption.
Qed.

Lemma iteration_settled junk1 junk2 st ks0 tr o :
  exec_k (iteration junk1 junk2 st) ks0 tr o -> settled false tr.
Proof.
  intros H. unfold_main H. execk_all H;
    cbn [settled is_dup2 is_execvp is_child_fork fork_result orb running];
    repeat split; try discriminate; try reflexivity;
    try (intros HH; apply Z.eqb_eq in HH; lia).
Qed.

(** C6: in a process that a [fork] of the loop body made a child, every
    [dup2] and every [execvp] is called at a time when no child of that
    process is running.  For the child that owns the pipe this is the [wait]
    that comes back only once the first stage has ended: it redirects its
    input to the pipe and executes the second command after that, never
    while the first stage runs. *)
Theorem second_stage_after_first (junk1 junk2 : nat -> cptr) (st : shell)
    (ks0 : kids) (tr : list (event * kids)) (o : outcome shell) :
  exec_k (iteration junk1 junk2 st) ks0 tr o ->
  forall pre e ks post,
    tr = (pre ++ (e, ks) :: post)%list ->
    (exists x, In x pre /\ fork_result x.1 = Some 0) ->
    is_dup2 e || is_execvp e = true ->
    running ks = O.
Proof.
  intros H pre e ks post Htr (x & Hx & Hf) He.
  apply (settled_split false tr (iteration_settled _ _ _ _ _ _ H)
           pre e ks post Htr); [|exact He].
  right. exists x. split; [exact Hx|].
  unfold is_child_fork. rewrite Hf. reflexivity.
Qed.

(** [ls | wc], seen from the child that owns the pipe: the first stage is
    running when [wait] is entered, has ended when it comes back. *)
Lemma second_stage_after_first_witness :
  let none := Kids 0 0 in
  let tr := [(Ev (printf "osh> ") tt, none); (Ev fflush_stdout tt, none);
             (Ev fgets_stdin (Some ("ls | wc" ++ nl)), none); (Ev fork 0, none);
             (Ev pipe (0, (3, 4)), none); (Ev fork 9, none);
             (Ev wait 9, Kids 0 1);
             (Ev (dup2 3 STDIN_FILENO) 0, none);
             (Ev (close 3) 0, none); (Ev (close 4) 0, none);
             (Gone (execvp (Some "wc") [Some "wc"; NULL]), none)] in
  exec_k (iteration no_junk no_junk fresh_shell) none tr
    (Replaced "wc" ["wc"]) /\
  running none = O.
Proof.
  intros none tr.
  assert (H : exec_k (iteration no_junk no_junk fresh_shell) none tr
                (Replaced "wc" ["wc"])).
  { unfold tr, none. execk_run. }
  split; [exact H|].
  apply (second_stage_after_first no_junk no_junk fresh_shell none tr
           (Replaced "wc" ["wc"]) H
           (firstn 7 tr) (Ev (dup2 3 STDIN_FILENO) 0) none (skipn 8 tr)).
  - reflexivity.
  - exists (Ev fork 0, none). split; [in_list|reflexivity].
  - reflexivity.
Defined.


(** ** Output redirection *)

Lemma string_app_empty_r (s : string) : s ++ "" = s.
Proof.
  induction s as [|c s IH]; [reflexivity|].
  change (String c (s ++ "") = String c s). f_equal. exact IH.
Qed.

Lemma write_into_empty data n :
  String.substring 0 0 "" ++ data ++ String.substring n (0 - n) "" = data.
Proof.
  destruct n; apply (string_app_empty_r data).
Qed.

Lemma sys_open_empties w name flags fd :
  has_flag flags O_CREAT = true -> has_flag flags O_TRUNC = true ->
  writable flags = true ->
  files (sys_open w name flags fd) !! name = Some "" /\
  fdtab (sys_open w name flags fd) !! fd = Some (OFile name 0 flags).
Proof.
  intros Hc Ht Hw. unfold sys_open. rewrite Hc, Ht, Hw. cbn [files fdtab andb].
  split.
  - destruct (files w !! name); apply lookup_insert_eq.
  - apply lookup_insert_eq.
Qed.

Lemma sys_write_fresh w fd name flags data :
  fdtab w !! fd = Some (OFile name 0 flags) ->
  writable flags = true -> has_flag flags O_APPEND = false ->
  files w !! name = Some "" ->
  files (sys_write w fd data) !! name = Some data.
Proof.
  intros Hfd Hw Ha Hf. unfold sys_write. rewrite Hfd.
  cbn [of_flags of_path of_pos]. rewrite Hw, Ha, Hf.
  cbn [files default]. rewrite lookup_insert_eq.
  f_equal. apply (write_into_empty data).
Qed.

(** One run of the child of an output redirection that got as far as the
    program: the file named after [>] was opened with
    [O_WRONLY | O_CREAT | O_TRUNC], was empty before the program wrote, and
    holds what the program wrote. *)
Lemma output_redirect_run output junk1 junk2 st p w w' tr o file av :
  needPipe (found p) = 0 -> ioRedirect (found p) = 2 ->
  exec (child junk1 junk2 st p) tr o ->
  run_child output w tr o = Some w' ->
  o = Replaced file av ->
  exists name fd rest w1,
    p_args p !! (opIndex (found p) + 1)%nat = Some (Some name) /\
    tr = Ev (open (Some name) (Z.lor (Z.lor O_WRONLY O_CREAT) O_TRUNC)
               mode_0666) fd :: rest /\
    effect w (Ev (open (Some name) (Z.lor (Z.lor O_WRONLY O_CREAT) O_TRUNC)
                    mode_0666) fd) = Some w1 /\
    files w1 !! name = Some "" /\
    files w' !! name = Some (output file av).
Proof.
  intros Hp Hio H Hrun Ho.
  unfold child, plain_case, redirect, exec_command in H.
  rewrite Hp, Hio in H. cbn [Z.eqb Pos.eqb] in H.
  exec_all H; try discriminate Ho. injection Ho as <- <-.
  match goal with
  | E : (_ || _) = false |- _ => apply orb_false_elim in E as [Hfd Hnull]
  end.
  match goal with
  | E : p_args p !! _ = Some ?x |- _ => destruct x as [name|]; [|discriminate]
  end.
  unfold run_child in Hrun. cbn [effects] in Hrun.
  destruct (effect w _) as [w1|] eqn:Hopen; [|discriminate].
  exists name, r. eexists. exists w1.
  split; [reflexivity|]. split; [reflexivity|].
  split; [exact Hopen|].
  cbn [effect] in Hopen. rewrite Hfd in Hopen.
  destruct (0 <=? r); [|discriminate]. injection Hopen as <-.
  destruct (sys_open_empties w name (Z.lor (Z.lor O_WRONLY O_CREAT) O_TRUNC) r)
    as [Hfile Hdesc]; [reflexivity..|].
  split; [exact Hfile|].
  cbn [effect] in Hrun. rewrite Hdesc in Hrun.
  destruct (r0 =? STDOUT_FILENO); [|discriminate].
  cbn [effect] in Hrun. injection Hrun as <-.
  apply (sys_write_fresh _ _ name (Z.lor (Z.lor O_WRONLY O_CREAT) O_TRUNC)).
  - cbn [fdtab]. apply lookup_insert_eq.
  - reflexivity.
  - reflexivity.
  - exact Hfile.
Qed.

(** C7: an output redirection opens the file named after [>] for writing,
    creating it if it is missing and emptying it, before the program
    writes.  So when the child of such a command has run twice, the second
    time on the files the first left, the file holds what the second
    program wrote and nothing of the first. *)
Theorem output_redirect_truncates
    (output : string -> list string -> string) (junk1 junk2 : nat -> cptr)
    (st1 st2 : shell) (p : parsed) (w w1 w2 : world)
    (tr1 tr2 : list event) (file1 file2 : string) (av1 av2 : list string) :
  needPipe (found p) = 0 -> ioRedirect (found p) = 2 ->
  exec (child junk1 junk2 st1 p) tr1 (Replaced file1 av1) ->
  run_child output w tr1 (Replaced file1 av1) = Some w1 ->
  exec (child junk1 junk2 st2 p) tr2 (Replaced file2 av2) ->
  run_child output w1 tr2 (Replaced file2 av2) = Some w2 ->
  exists name fd rest w',
    p_args p !! (opIndex (found p) + 1)%nat = Some (Some name) /\
    files w1 !! name = Some (output file1 av1) /\
    tr2 = Ev (open (Some name) (Z.lor (Z.lor O_WRONLY O_CREAT) O_TRUNC)
                mode_0666) fd :: rest /\
    effect w1 (Ev (open (Some name) (Z.lor (Z.lor O_WRONLY O_CREAT) O_TRUNC)
                    mode_0666) fd) = Some w' /\
    files w' !! name = Some "" /\
    files w2 !! name = Some (output file2 av2).
Proof.
  intros Hp Hio H1 Hrun1 H2 Hrun2.
  destruct (output_redirect_run _ _ _ _ _ _ _ _ _ _ _ Hp Hio H1 Hrun1 eq_refl)
    as (name & _ & _ & _ & Hname & _ & _ & _ & Hw1).
  destruct (output_redirect_run _ _ _ _ _ _ _ _ _ _ _ Hp Hio H2 Hrun2 eq_refl)
    as (name' & fd & rest & w' & Hname' & Htr & Hopen & Hempty & Hw2).
  rewrite Hname in Hname'. injection Hname' as <-.
  exists name, fd, rest, w'. auto 10.
Qed.

Example interpret_echo_hi :
  interpret (args fresh_shell) "echo hi > out.txt" = Some echo_hi.
Proof. vm_compute. reflexivity. Qed.

(** [echo hi > out.txt] twice, on a file that had something in it. *)
Lemma output_redirect_truncates_witness :
  let w0 := World {[ "out.txt" := "old contents" ]} ∅ in
  let st := Shell 1 (p_args echo_hi) "echo hi > out.txt" in
  let tr := [Ev (open (Some "out.txt")
                   (Z.lor (Z.lor O_WRONLY O_CREAT) O_TRUNC) mode_0666) 3;
             Ev (dup2 3 STDOUT_FILENO) 1;
             Gone (execvp (Some "echo")
                     (Some "echo" :: Some "hi" :: replicate 39 NULL))] in
  exists w1 w2,
    exec (child no_junk no_junk st echo_hi) tr (Replaced "echo" ["echo"; "hi"]) /\
    run_child echo_output w0 tr (Replaced "echo" ["echo"; "hi"]) = Some w1 /\
    run_child echo_output w1 tr (Replaced "echo" ["echo"; "hi"]) = Some w2 /\
    files w1 !! "out.txt" = Some ("hi" ++ nl) /\
    files w2 !! "out.txt" = Some ("hi" ++ nl).
Proof.
  intros w0 st tr.
  assert (H : exec (child no_junk no_junk st echo_hi) tr
                (Replaced "echo" ["echo"; "hi"])).
  { unfold tr. exec_run. }
  eexists _, _.
  split; [exact H|]. split; [reflexivity|]. split; [reflexivity|].
  destruct (output_redirect_truncates echo_output no_junk no_junk st st
              echo_hi w0 _ _ tr tr "echo" "echo" ["echo"; "hi"] ["echo"; "hi"]
              eq_refl eq_refl H eq_refl H eq_refl)
    as (name & fd & rest & w' & Hname & Hw1 & _ & _ & _ & Hw2).
  injection Hname as <-. split; [exact Hw1|exact Hw2].
Defined.

(** ** The branch a classification selects *)

Lemma child_classified junk1 junk2 st p :
  child junk1 junk2 st p =
  match classify (found p) with
  | Pipe => pipe_case junk1 junk2 st (p_args p) (numArgs p) (opIndex (found p))
  | InputRedirect =>
      redirect st (p_args p) (opIndex (found p)) (ioRedirect (found p))
        O_RDONLY "Input file failed" STDIN_FILENO
  | OutputRedirect =>
      redirect st (p_args p) (opIndex (found p)) (ioRedirect (found p))
        (Z.lor (Z.lor O_WRONLY O_CREAT) O_TRUNC) "Output file failed"
        STDOUT_FILENO
  | Plain => exec_command st (p_args p) (ioRedirect (found p)) None
  end.
Proof.
  unfold child, plain_case, classify.
  destruct (needPipe (found p) =? 0); [|reflexivity].
  destruct (ioRedirect (found p) =? 1); [reflexivity|].
  destruct (ioRedirect (found p) =? 2); reflexivity.
Qed.

(** Whatever the shell held before, a turn that reads a line of one space
    stores it and comes to the [fork]. *)
Lemma blank_line_forks junk1 junk2 st tr o :
  length (args st) = argSize ->
  exec (iteration junk1 junk2 st) tr o ->
  entered tr = [" "] ->
  (exists e, In e tr /\ is_fork e = true) /\
  (forall st', o = Returned st' -> history st' = " ").
Proof.
  intros Hlen H Hent. unfold iteration in H.
  assert (Hint : forall h, interpret (args (Shell (should_run st) (args st) h)) " " =
                 Some (Parsed 0 (<[0%nat:=NULL]> (args st)) 0 (Special 0 0 1))).
  { intros h. unfold interpret, tokenize. cbn [args]. rewrite Hlen. reflexivity. }
  exec_all H;
    unfold entered in Hent; cbn [omap list_omap entered_line] in Hent;
    try match goal with E : chop_last _ = _ |- _ => rewrite E in Hent end;
    cbn [omap list_omap] in Hent; try discriminate Hent;
    injection Hent; intros; subst; try discriminate.
  unfold dispatch in H. rewrite Hint in H.
  exec_step H. split.
  - match goal with |- context [Ev fork ?pid] => exists (Ev fork pid) end.
    split; [in_list|reflexivity].
  - clear Hint. unfold child, plain_case, exec_command in H.
    cbn [found needPipe ioRedirect p_args Z.eqb Pos.eqb] in H.
    intros st' Ho. exec_all H; try discriminate Ho; injection Ho as <-;
      reflexivity.
Qed.

(** ** The loop keeps its buffers in shape *)

Lemma strlen_chop_last r s :
  chop_last r = Some s -> (strlen s < strlen r)%nat.
Proof.
  intros H. destruct (String.eqb_spec r "") as [->|Hne]; [discriminate|].
  destruct (string_snoc r Hne) as (s' & c & ->).
  rewrite chop_last_snoc in H. injection H as <-.
  rewrite strlen_app. cbn. lia.
Qed.

Lemma store_length (a a' : list cptr) k v :
  store a k v = Some a' -> length a' = length a.
Proof.
  unfold store. destruct (decide (k < length a)%nat); [|discriminate].
  intros [= <-]. apply length_insert.
Qed.

Lemma interpret_length a cmd p :
  interpret a cmd = Some p -> length (p_args p) = length a.
Proof.
  unfold interpret. destruct (background cmd) as [[bg c]|]; [|discriminate].
  cbn. destruct (tokenize a c) as [[a' n]|] eqn:E; [|discriminate].
  cbn. destruct (scan_special a' n); [|discriminate].
  intros [= <-]. cbn. apply (tokenize_shape _ _ _ _ E).
Qed.

Lemma dispatch_ok junk1 junk2 st cmd tr o st' :
  exec (dispatch junk1 junk2 st cmd) tr o -> o = Returned st' ->
  length (args st') = length (args st) /\ history st' = history st.
Proof.
  intros H Ho. unfold dispatch in H.
  destruct (interpret (args st) cmd) as [p|] eqn:Hp;
    [|destruct H as [_ ->]; discriminate].
  apply interpret_length in Hp.
  unfold child, plain_case, pipe_case, redirect, exec_command in H.
  exec_all H; try discriminate Ho; injection Ho as <-; cbn [args history];
    repeat match goal with
           | E : store _ _ _ = Some _ |- _ => apply store_length in E
           end;
    split; congruence.
Qed.

Lemma iteration_ok junk1 junk2 st tr st' :
  shell_ok st -> exec (iteration junk1 junk2 st) tr (Returned st') ->
  shell_ok st'.
Proof.
  intros [Hlen Hhist] H. unfold iteration in H.
  remember (Returned st') as o eqn:Ho.
  exec_all H; try discriminate Ho; try (injection Ho as <-; split; assumption).
  - destruct (dispatch_ok _ _ _ _ _ _ _ H Ho) as [Ha Hh].
    split; [rewrite Ha; exact Hlen|rewrite Hh; exact Hhist].
  - destruct (dispatch_ok _ _ _ _ _ _ _ H Ho) as [Ha Hh].
    cbn [args history] in Ha, Hh.
    split; [rewrite Ha; exact Hlen|]. rewrite Hh.
    match goal with
    | E : chop_last _ = Some _ |- _ => apply strlen_chop_last in E
    end. lia.
Qed.

Lemma initial_ok junk : shell_ok (initial junk).
Proof. split; [apply length_vla|cbn; unfold MAX_LINE; lia]. Qed.

Lemma loop_ok junk1 junk2 st tr st' :
  loop junk1 junk2 st tr st' -> shell_ok st -> shell_ok st'.
Proof.
  induction 1 as [st|st tr1 st1 tr2 st2 _ Hturn _ IH]; [auto|].
  intros Hok. apply IH. exact (iteration_ok _ _ _ _ _ Hok Hturn).
Qed.

(** However many turns the shell has made, the next command line, whether
    just read or recalled from the history slot, is tokenised within
    [args]. *)
Lemma loop_tokenize_within_args junk1 junk2 junk tr st line cmd :
  loop junk1 junk2 (initial junk) tr st ->
  returns fgets_stdin (Some line) -> chop_last line = Some cmd ->
  (cmd <> "" -> exists p, interpret (args st) cmd = Some p) /\
  (history st <> "" -> exists p, interpret (args st) (history st) = Some p).
Proof.
  intros Hloop Hline Hcmd.
  destruct (loop_ok _ _ _ _ _ Hloop (initial_ok junk)) as [Hlen Hhist].
  apply strlen_chop_last in Hcmd. cbn [returns] in Hline.
  split; intros Hne.
  - destruct (interpret_total (args st) cmd Hlen Hne) as (p & Hp & _);
      [unfold MAX_LINE in *; lia|]. eauto.
  - destruct (interpret_total (args st) (history st) Hlen Hne) as (p & Hp & _);
      [unfold MAX_LINE in *; lia|]. eauto.
Qed.

(** ** A redirection without a file name *)

Lemma interpret_terminated a cmd p :
  interpret a cmd = Some p -> p_args p !! numArgs p = Some NULL.
Proof.
  unfold interpret. destruct (background cmd) as [[bg c]|]; [|discriminate].
  cbn. destruct (tokenize a c) as [[a' n]|] eqn:E; [|discriminate].
  cbn. destruct (scan_special a' n); [|discriminate].
  intros [= <-]. cbn. apply (tokenize_shape _ _ _ _ E).
Qed.

(** Whenever [<] or [>] is the last token of the line, the child calls
    [open] with a null path, then reports and exits with status 1. *)
Lemma redirect_without_name junk1 junk2 st a cmd p tr o :
  interpret a cmd = Some p ->
  needPipe (found p) = 0 ->
  ioRedirect (found p) = 1 \/ ioRedirect (found p) = 2 ->
  (opIndex (found p) + 1)%nat = numArgs p ->
  exec (child junk1 junk2 st p) tr o ->
  exists flags fd msg,
    tr = [Ev (open NULL flags mode_0666) fd; Ev (perror msg) tt] /\
    o = Exited 1.
Proof.
  intros Hp Hpipe Hio Hlast H. apply interpret_terminated in Hp.
  unfold child, plain_case, redirect in H.
  rewrite Hpipe, Hlast, Hp in H. cbn [Z.eqb] in H.
  destruct Hio as [Hio|Hio]; rewrite Hio in H; cbn [Z.eqb Pos.eqb] in H;
    exec_step H;
    rewrite orb_true_r in H; exec_all H;
    eexists _, _, _; split; reflexivity.
Qed.

(** ** What the tokens are *)

Lemma skip_delims_drop_spaces s :
  drop_spaces (skip_delims s) = drop_spaces s.
Proof.
  induction s as [|c s IH]; [reflexivity|]. simpl.
  destruct (is_delim c) eqn:E; [exact IH|]. simpl. rewrite E. reflexivity.
Qed.

Lemma cut_token_words s t r :
  cut_token s = (t, r) ->
  space_free t = true /\ drop_spaces s = t ++ drop_spaces r.
Proof.
  revert t r. induction s as [|c s IH]; simpl; intros t r.
  - intros [= <- <-]. split; reflexivity.
  - destruct (is_delim c) eqn:E.
    + intros [= <- <-]. split; reflexivity.
    + destruct (cut_token s) as [t' r'] eqn:Ec. intros [= <- <-].
      destruct (IH _ _ eq_refl) as [Hf Hd]. simpl. rewrite E, Hf, Hd.
      split; reflexivity.
Qed.

Lemma strtok_words s :
  match strtok s with
  | Some (t, r) =>
      t <> "" /\ space_free t = true /\ drop_spaces s = t ++ drop_spaces r
  | None => drop_spaces s = ""
  end.
Proof.
  unfold strtok. rewrite <- (skip_delims_drop_spaces s).
  destruct (skip_delims s) as [|c s'] eqn:E; [reflexivity|].
  apply skip_delims_head in E.
  destruct (cut_token (String c s')) as [t r] eqn:Ec.
  destruct (cut_token_words _ _ _ Ec) as [Hf Hd].
  split; [|split; assumption].
  simpl in Ec. rewrite E in Ec. destruct (cut_token s'). injection Ec as <- _.
  discriminate.
Qed.

Lemma string_app_assoc (s1 s2 s3 : string) :
  (s1 ++ s2) ++ s3 = s1 ++ (s2 ++ s3).
Proof.
  induction s1 as [|c s1 IH]; [reflexivity|].
  change (String c ((s1 ++ s2) ++ s3) = String c (s1 ++ (s2 ++ s3))).
  f_equal. exact IH.
Qed.

Lemma tokenize_loop_words room a k saved a' n :
  tokenize_loop room a k saved = Some (a', n) ->
  (k + room <= length a)%nat ->
  exists toks,
    n = (k + length toks)%nat /\
    take n a' = (take k a ++ (Some <$> toks))%list /\
    Forall (fun t => t <> "" /\ space_free t = true) toks /\
    drop_spaces saved = String.concat "" toks.
Proof.
  revert a k saved. induction room as [|room IH]; intros a k saved;
    [discriminate|].
  simpl. pose proof (strtok_words saved) as Hw.
  destruct (strtok saved) as [[t r]|].
  - intros H Hk. destruct Hw as (Hne & Hf & Hd).
    apply IH in H; [|rewrite length_insert; lia].
    destruct H as (toks & -> & Htake & Hall & Hr).
    exists (t :: toks). split; [simpl; lia|]. split; [|split].
    + rewrite Htake. rewrite (take_S_r _ _ (Some t))
        by (apply list_lookup_insert_eq; lia).
      rewrite take_insert_ge by lia. rewrite <- app_assoc. reflexivity.
    + constructor; [split; assumption|exact Hall].
    + rewrite Hd, Hr. destruct toks; [|reflexivity].
      apply (string_app_empty_r t).
  - intros [= <- <-] Hk. exists []. split; [simpl; lia|].
    split; [|split; [constructor|exact Hw]].
    rewrite take_insert_ge by lia. simpl. rewrite app_nil_r. reflexivity.
Qed.

Lemma tokenize_words a line a' n :
  tokenize a line = Some (a', n) ->
  exists toks,
    n = length toks /\ a' = ((Some <$> toks) ++ NULL :: drop (S n) a')%list /\
    Forall (fun t => t <> "" /\ space_free t = true) toks /\
    drop_spaces line = String.concat "" toks.
Proof.
  intros H. pose proof (tokenize_shape _ _ _ _ H) as (_ & _ & _ & Hend).
  apply tokenize_loop_words in H; [|simpl; lia].
  destruct H as (toks & -> & Htake & Hall & Hd). simpl in *.
  exists toks. split; [reflexivity|].
  split; [|split; assumption].
  apply (tokens_of_take a' (length toks) toks Htake Hend).
Qed.

(** X1: the tokens that the tokenising loop leaves in [args] are words: none
    is empty and none holds a space, however many spaces the line has
    between, before or after them; [args] holds them in order, then [NULL];
    and put end to end they are the line without its spaces, so no
    character of the line is lost or invented. *)
Theorem tokens_are_words (a : list cptr) (line : string) (a' : list cptr)
    (n : nat) :
  tokenize a line = Some (a', n) ->
  exists toks,
    n = length toks /\
    a' = ((Some <$> toks) ++ NULL :: drop (S n) a')%list /\
    argv a' = toks /\
    Forall (fun t => t <> "" /\ space_free t = true) toks /\
    String.concat "" toks = drop_spaces line.
Proof.
  intros H. destruct (tokenize_words _ _ _ _ H) as (toks & Hn & Ha & Hall & Hd).
  exists toks. split; [exact Hn|]. split; [exact Ha|].
  split; [rewrite Ha; apply argv_tokens|]. split; [exact Hall|].
  symmetry. exact Hd.
Qed.

Lemma tokens_are_words_witness :
  exists toks,
    2%nat = length toks /\
    (Some "ls" :: Some "-l" :: replicate 39 NULL) =
      ((Some <$> toks) ++ NULL
       :: drop 3 (Some "ls" :: Some "-l" :: replicate 39 NULL))%list /\
    argv (Some "ls" :: Some "-l" :: replicate 39 NULL) = toks /\
    Forall (fun t => t <> "" /\ space_free t = true) toks /\
    String.concat "" toks = drop_spaces "  ls   -l  ".
Proof.
  apply (tokens_are_words (replicate argSize NULL) "  ls   -l  ").
  vm_compute. reflexivity.
Defined.

(** ** Words joined by single spaces *)

Lemma cut_token_word t r :
  space_free t = true -> cut_token (t ++ String " " r) = (t, r).
Proof.
  induction t as [|c t IH]; [reflexivity|]. simpl space_free.
  intros [Hc Ht]%andb_true_iff.
  change (String c t ++ String " " r) with (String c (t ++ String " " r)).
  simpl. destruct (is_delim c); [discriminate|]. rewrite (IH Ht). reflexivity.
Qed.

Lemma cut_token_last t : space_free t = true -> cut_token t = (t, "").
Proof.
  induction t as [|c t IH]; [reflexivity|]. simpl.
  intros [Hc Ht]%andb_true_iff.
  destruct (is_delim c); [discriminate|]. rewrite (IH Ht). reflexivity.
Qed.

Lemma strtok_at_word s c s' :
  s = String c s' -> is_delim c = false -> strtok s = Some (cut_token s).
Proof. intros -> Hc. unfold strtok. simpl skip_delims. rewrite Hc. reflexivity. Qed.

Lemma strtok_join t ts :
  t <> "" -> space_free t = true ->
  strtok (String.concat " " (t :: ts)) = Some (t, String.concat " " ts).
Proof.
  intros Hne Hf. destruct t as [|c t]; [congruence|].
  pose proof Hf as Hc. simpl in Hc. apply andb_true_iff in Hc as [Hc _].
  apply negb_true_iff in Hc.
  destruct ts as [|t' ts].
  - rewrite (strtok_at_word (String.concat " " [String c t]) c t eq_refl Hc).
    change (String.concat " " [String c t]) with (String c t).
    rewrite (cut_token_last _ Hf). reflexivity.
  - rewrite (strtok_at_word (String.concat " " (String c t :: t' :: ts)) c
               (t ++ String " " (String.concat " " (t' :: ts))) eq_refl Hc).
    rewrite <- (cut_token_word _ (String.concat " " (t' :: ts)) Hf).
    reflexivity.
Qed.

Lemma tokenize_loop_join room a k toks :
  Forall (fun t => t <> "" /\ space_free t = true) toks ->
  (length toks < room)%nat -> (k + room <= length a)%nat ->
  exists a',
    tokenize_loop room a k (String.concat " " toks) =
      Some (a', (k + length toks)%nat) /\
    take (k + length toks) a' = (take k a ++ (Some <$> toks))%list /\
    a' !! (k + length toks)%nat = Some NULL.
Proof.
  intros Hall. revert room a k.
  induction Hall as [|t ts [Hne Hf] Hall IH]; intros room a k Hroom Hk.
  - destruct room as [|room]; [simpl in Hroom; lia|].
    exists (<[k:=NULL]> a). simpl. rewrite Nat.add_0_r.
    split; [reflexivity|]. split.
    + rewrite take_insert_ge by lia. rewrite app_nil_r. reflexivity.
    + apply list_lookup_insert_eq. lia.
  - destruct room as [|room]; [simpl in Hroom; lia|].
    cbn [tokenize_loop]. rewrite (strtok_join t ts Hne Hf).
    destruct (IH room (<[k:=Some t]> a) (S k)) as (a' & Hrun & Htake & Hend).
    { simpl in Hroom. lia. } { rewrite length_insert. lia. }
    exists a'. cbn [length].
    replace (k + S (length ts))%nat with (S k + length ts)%nat by lia.
    split; [exact Hrun|]. split; [|exact Hend].
    rewrite Htake. rewrite (take_S_r _ _ (Some t))
      by (apply list_lookup_insert_eq; lia).
    rewrite take_insert_ge by lia. rewrite <- app_assoc. reflexivity.
Qed.

(** X2: words joined by single spaces are tokenised back into themselves:
    for words that are not empty and hold no space, fewer of them than
    [args] has slots, the loop run on their join stores exactly these
    words, in order, and counts them. *)
Theorem tokenize_join (a : list cptr) (toks : list string) :
  Forall (fun t => t <> "" /\ space_free t = true) toks ->
  (length toks < length a)%nat ->
  exists a',
    tokenize a (String.concat " " toks) = Some (a', length toks) /\
    argv a' = toks.
Proof.
  intros Hall Hlen.
  destruct (tokenize_loop_join (length a) a 0 toks Hall Hlen)
    as (a' & Hrun & Htake & Hend); [simpl; lia|].
  exists a'. split; [exact Hrun|].
  exact (argv_of_take a' (length toks) toks Htake Hend).
Qed.

Lemma tokenize_join_witness :
  exists a',
    tokenize (replicate argSize NULL)
      (String.concat " " ["grep"; "-n"; "main"; "shell.c"]) =
      Some (a', 4%nat) /\
    argv a' = ["grep"; "-n"; "main"; "shell.c"].
Proof.
  apply (tokenize_join (replicate argSize NULL)
           ["grep"; "-n"; "main"; "shell.c"]).
  - repeat constructor; discriminate.
  - vm_compute. lia.
Defined.

(** ** The end of the loop *)

Lemma iteration_should_run junk1 junk2 st tr o st' :
  exec (iteration junk1 junk2 st) tr o -> o = Returned st' ->
  (should_run st' = should_run st /\
   exists l, entered tr = [l] /\ l <> "exit") \/
  (should_run st' = 0 /\
   exists line, tr = [Ev (printf "osh> ") tt; Ev fflush_stdout tt;
                      Ev fgets_stdin (Some line)] /\
                chop_last line = Some "exit").
Proof.
  intros H Ho. unfold_main H. exec_all H; try discriminate Ho;
    injection Ho as <-;
    repeat match goal with
           | E : streq _ _ = false |- _ => apply String.eqb_neq in E
           | E : streq _ _ = true |- _ => apply String.eqb_eq in E; subst
           end;
    try (right; split; [reflexivity|]; eexists; split; [reflexivity|];
         assumption);
    left; (split; [reflexivity|]);
    unfold entered; cbn [omap list_omap entered_line];
    match goal with E : chop_last _ = Some _ |- _ => rewrite E end;
    eexists; (split; [reflexivity|]); first [assumption|discriminate].
Qed.

Lemma loop_stopped junk1 junk2 st tr st' :
  loop junk1 junk2 st tr st' -> should_run st = 0 -> tr = [] /\ st' = st.
Proof.
  intros H Hz. destruct H as [st|st tr1 st1 tr2 st2 Hrun _ _].
  - split; reflexivity.
  - contradiction.
Qed.

Lemma loop_should_run junk1 junk2 st tr st' :
  loop junk1 junk2 st tr st' ->
  (should_run st' = should_run st /\ "exit" ∉ entered tr) \/
  (should_run st' = 0 /\
   exists pre line,
     tr = (pre ++ [Ev (printf "osh> ") tt; Ev fflush_stdout tt;
                   Ev fgets_stdin (Some line)])%list /\
     chop_last line = Some "exit" /\ "exit" ∉ entered pre).
Proof.
  induction 1 as [st|st tr1 st1 tr2 st2 Hrun Hturn Hloop IH].
  - left. split; [reflexivity|]. apply not_elem_of_nil.
  - destruct (iteration_should_run _ _ _ _ _ _ Hturn eq_refl)
      as [[Hsame (l & Hl & Hne)]|[Hz (line & -> & Hline)]].
    + destruct IH as [[Hs Hnot]|[Hz (pre & line & -> & Hline & Hnot)]].
      * left. split; [congruence|]. rewrite entered_app, Hl.
        intros [Heq|Hin]%elem_of_cons; [congruence|contradiction].
      * right. split; [exact Hz|]. exists (tr1 ++ pre)%list, line.
        split; [rewrite app_assoc; reflexivity|]. split; [exact Hline|].
        rewrite entered_app, Hl.
        intros [Heq|Hin]%elem_of_cons; [congruence|contradiction].
    + destruct (loop_stopped _ _ _ _ _ Hloop Hz) as [-> ->].
      right. split; [exact Hz|]. exists [], line.
      split; [reflexivity|]. split; [exact Hline|]. apply not_elem_of_nil.
Qed.

(** X3: when [main] runs off its end, the last thing it did was to read the
    line [exit]: after the banner and the turns before, its calls end with
    the prompt, the flush and the [fgets] that gave [exit], with no [fork]
    or anything else after it; and no line entered before was [exit]. *)
Theorem main_returns_on_exit (junk1 junk2 junk : nat -> cptr)
    (tr : list event) :
  main_returns junk1 junk2 junk tr ->
  exists pre line,
    tr = (Ev (printf banner) tt :: pre ++
          [Ev (printf "osh> ") tt; Ev fflush_stdout tt;
           Ev fgets_stdin (Some line)])%list /\
    chop_last line = Some "exit" /\
    "exit" ∉ entered pre.
Proof.
  intros [tr' st Hloop Hz].
  destruct (loop_should_run _ _ _ _ _ Hloop)
    as [[Hs _]|[_ (pre & line & -> & Hline & Hnot)]].
  - rewrite Hz in Hs. discriminate Hs.
  - exists pre, line. auto.
Qed.

Lemma main_returns_on_exit_witness :
  let turn1 := [Ev (printf "osh> ") tt; Ev fflush_stdout tt;
                Ev fgets_stdin (Some ("ls &" ++ nl)); Ev fork 7] in
  let turn2 := [Ev (printf "osh> ") tt; Ev fflush_stdout tt;
                Ev fgets_stdin (Some ("exit" ++ nl))] in
  exists pre line,
    (Ev (printf banner) tt :: turn1 ++ turn2)%list =
      (Ev (printf banner) tt :: pre ++
       [Ev (printf "osh> ") tt; Ev fflush_stdout tt;
        Ev fgets_stdin (Some line)])%list /\
    chop_last line = Some "exit" /\
    "exit" ∉ entered pre.
Proof.
  intros turn1 turn2.
  apply (main_returns_on_exit no_junk no_junk no_junk).
  apply (main_end _ _ _ _ (Shell 0 (Some "ls" :: replicate 40 NULL) "ls &")).
  - eapply loop_turn; [discriminate|unfold turn1; exec_run|].
    rewrite <- (app_nil_r turn2).
    eapply loop_turn; [discriminate|unfold turn2; exec_run|].
    apply loop_here.
  - reflexivity.
Defined.

(** ** Foreground and background *)

Lemma interpret_background a cmd p :
  interpret a cmd = Some p ->
  exists c, last_char cmd = Some c /\
            bgProcess p = (if Ascii.eqb c "&"%char then 1 else 0).
Proof.
  unfold interpret, background.
  destruct (last_char cmd) as [c|]; [|discriminate]. cbn.
  intros H. exists c. split; [reflexivity|].
  destruct (Ascii.eqb c "&"%char); cbn in H.
  - destruct (chop_last cmd) as [s|]; [|discriminate]. cbn in H.
    destruct (tokenize a s) as [[a' n]|]; [|discriminate]. cbn in H.
    destruct (scan_special a' n); [|discriminate]. injection H as <-.
    reflexivity.
  - destruct (tokenize a cmd) as [[a' n]|]; [|discriminate]. cbn in H.
    destruct (scan_special a' n); [|discriminate]. injection H as <-.
    reflexivity.
Qed.

Ltac zbool :=
  repeat match goal with
         | E : (_ <? _) = true |- _ => apply Z.ltb_lt in E
         | E : (_ <? _) = false |- _ => apply Z.ltb_ge in E
         | E : (_ =? _) = true |- _ => apply Z.eqb_eq in E
         | E : (_ =? _) = false |- _ => apply Z.eqb_neq in E
         end.

Lemma dispatch_in_shell junk1 junk2 st cmd tr o :
  exec (dispatch junk1 junk2 st cmd) tr o ->
  (forall e, In e tr -> fork_result e <> Some 0) ->
  interpret (args st) cmd = None \/
  exists p pid,
    interpret (args st) cmd = Some p /\
    o = Returned (Shell (should_run st) (p_args p) (history st)) /\
    ((0 < pid /\ bgProcess p = 0 /\ exists r, tr = [Ev fork pid; Ev wait r]) \/
     (0 < pid /\ bgProcess p <> 0 /\ tr = [Ev fork pid]) \/
     (pid < 0 /\ tr = [Ev fork pid; Ev (perror "Fork failed") tt])).
Proof.
  intros H Hrole. unfold dispatch in H.
  destruct (interpret (args st) cmd) as [p|] eqn:Hp;
    [|left; reflexivity].
  exec_step H. exec_step H; [exec_all H; zbool|exec_step H].
  - right. exists p, r. split; [reflexivity|]. split; [reflexivity|].
    left. split; [assumption|]. split; [assumption|]. eexists. reflexivity.
  - right. exists p, r. split; [reflexivity|]. split; [reflexivity|].
    right. left. auto.
  - exfalso. apply (Hrole (Ev fork 0)); [in_list|reflexivity].
  - exec_all H. zbool. right. exists p, r.
    split; [reflexivity|]. split; [reflexivity|]. right. right.
    split; [lia|reflexivity].
Qed.

(** X4: a turn of the shell itself on a command line (the process is not a
    child: no [fork] gave it 0).  It makes one [fork] and is back at the head
    of the loop with [should_run] as it was.  When the line ends in [&] it
    does not wait; when it does not, it calls [wait] once, right after the
    [fork]; when the [fork] fails it reports ["Fork failed"] and goes on. *)
Theorem shell_waits_unless_background (junk1 junk2 : nat -> cptr)
    (st : shell) (tr : list event) (o : outcome shell) (cmd : string) :
  shell_ok st ->
  exec (iteration junk1 junk2 st) tr o ->
  entered tr = [cmd] -> is_command cmd = true ->
  (forall e, In e tr -> fork_result e <> Some 0) ->
  exists line pid rest st',
    tr = ([Ev (printf "osh> ") tt; Ev fflush_stdout tt;
           Ev fgets_stdin (Some line); Ev fork pid] ++ rest)%list /\
    o = Returned st' /\ should_run st' = should_run st /\
    ((0 < pid /\ last_char cmd = Some "&"%char /\ rest = []) \/
     (0 < pid /\ last_char cmd <> Some "&"%char /\
      exists r, rest = [Ev wait r]) \/
     (pid < 0 /\ rest = [Ev (perror "Fork failed") tt])).
Proof.
  intros [Hlen _] H Hent Hcmd Hrole. unfold iteration in H.
  unfold is_command in Hcmd.
  apply andb_true_iff in Hcmd as [[Hc1 Hc2]%andb_true_iff Hc3].
  apply negb_true_iff in Hc1, Hc2, Hc3.
  exec_all H;
    unfold entered in Hent; cbn [omap list_omap entered_line] in Hent;
    try match goal with E : chop_last _ = _ |- _ => rewrite E in Hent end;
    cbn [omap list_omap] in Hent; try discriminate Hent;
    injection Hent; intros; subst; try congruence.
  match goal with E : chop_last _ = Some _ |- _ =>
    pose proof (strlen_chop_last _ _ E) as Hshort end.
  apply dispatch_in_shell in H;
    [|intros e He; apply Hrole; simpl; tauto].
  cbn [args should_run history] in H.
  destruct H as [Hnone|(p & pid & Hp & -> & Hcases)].
  { apply String.eqb_neq in Hc1.
    destruct (interpret_total (args st) cmd Hlen Hc1) as (p & Hp & _);
      [unfold MAX_LINE in *; lia|congruence]. }
  destruct (interpret_background _ _ _ Hp) as (c & Hlast & Hbg).
  exists r, pid.
  destruct Hcases as [(Hpid & Hfg & w & ->)|[(Hpid & Hb & ->)|(Hpid & ->)]];
    eexists _, _; (split; [reflexivity|]); (split; [reflexivity|]);
    (split; [reflexivity|]).
  - right. left. split; [exact Hpid|]. split; [|eexists; reflexivity].
    rewrite Hlast. intros [= ->]. rewrite Hfg in Hbg. discriminate Hbg.
  - left. split; [exact Hpid|]. split; [|reflexivity].
    rewrite Hlast. f_equal. destruct (Ascii.eqb_spec c "&"%char); congruence.
  - right. right. split; [exact Hpid|reflexivity].
Qed.

Lemma shell_waits_unless_background_witness :
  let tr := [Ev (printf "osh> ") tt; Ev fflush_stdout tt;
             Ev fgets_stdin (Some ("sleep 9 &" ++ nl)); Ev fork 7] in
  exists line pid rest st',
    tr = ([Ev (printf "osh> ") tt; Ev fflush_stdout tt;
           Ev fgets_stdin (Some line); Ev fork pid] ++ rest)%list /\
    Returned (Shell 1 (Some "sleep" :: Some "9" :: replicate 39 NULL)
                "sleep 9 &") = Returned st' /\
    should_run st' = should_run fresh_shell /\
    ((0 < pid /\ last_char "sleep 9 &" = Some "&"%char /\ rest = []) \/
     (0 < pid /\ last_char "sleep 9 &" <> Some "&"%char /\
      exists r, rest = [Ev wait r]) \/
     (pid < 0 /\ rest = [Ev (perror "Fork failed") tt])).
Proof.
  intros tr.
  apply (shell_waits_unless_background no_junk no_junk fresh_shell tr
           _ "sleep 9 &").
  - apply initial_ok.
  - unfold tr. exec_run.
  - reflexivity.
  - reflexivity.
  - intros e He. simpl in He.
    repeat (destruct He as [<-|He]; [discriminate|]). contradiction.
Defined.

(** ** When the system refuses a process or a pipe *)

(** X5: in every execution of the loop body, a [pipe] that gives [-1] is
    followed by the report ["Pipe failed"] and [exit(1)] and nothing else;
    and a [fork] that gives a negative value is followed by one report,
    ["Fork failed"] or ["Child fork failed"], after which the process is
    back at the head of the loop with [should_run] as it was: it neither
    exits nor executes anything, also when it is the child of a piped
    command. *)
Theorem refused_process_or_pipe (junk1 junk2 : nat -> cptr) (st : shell)
    (tr : list event) (o : outcome shell) :
  exec (iteration junk1 junk2 st) tr o ->
  forall pre e post,
    tr = (pre ++ e :: post)%list ->
    (is_failed_pipe e = true ->
     post = [Ev (perror "Pipe failed") tt] /\ o = Exited 1) /\
    (is_failed_fork e = true ->
     (post = [Ev (perror "Fork failed") tt] \/
      post = [Ev (perror "Child fork failed") tt]) /\
     exists st', o = Returned st' /\ should_run st' = should_run st).
Proof.
  intros H pre e post Htr. split; intros He.
  - revert pre e post Htr He. apply after_each_split.
    unfold_main H. exec_all H;
      cbn [after_each is_failed_pipe fst]; repeat split;
      try discriminate; try reflexivity;
      try congruence.
  - revert pre e post Htr He. apply after_each_split.
    unfold_main H. exec_all H; zbool;
      cbn [after_each is_failed_fork fork_result]; repeat split;
      try discriminate; try reflexivity;
      try (zbool; lia);
      try (left; reflexivity); try (right; reflexivity);
      try (eexists; split; reflexivity).
Qed.

(** [ls | wc] in the child, when the second [fork] is refused. *)
Lemma refused_process_or_pipe_witness :
  let pre := [Ev (printf "osh> ") tt; Ev fflush_stdout tt;
              Ev fgets_stdin (Some ("ls | wc" ++ nl)); Ev fork 0;
              Ev pipe (0, (3, 4))] in
  let post := [Ev (perror "Child fork failed") tt] in
  let st' := Shell 1 (Some "ls" :: Some "|" :: Some "wc" :: replicate 38 NULL)
               "ls | wc" in
  exec (iteration no_junk no_junk fresh_shell)
    (pre ++ Ev fork (-1) :: post) (Returned st') /\
  (is_failed_pipe (Ev fork (-1)) = true ->
   post = [Ev (perror "Pipe failed") tt] /\ Returned st' = Exited 1) /\
  (is_failed_fork (Ev fork (-1)) = true ->
   (post = [Ev (perror "Fork failed") tt] \/
    post = [Ev (perror "Child fork failed") tt]) /\
   exists st'', Returned st' = Returned st'' /\
                should_run st'' = should_run fresh_shell).
Proof.
  intros pre post st'.
  assert (H : exec (iteration no_junk no_junk fresh_shell)
                (pre ++ Ev fork (-1) :: post) (Returned st')).
  { unfold pre, post. exec_run. }
  split; [exact H|].
  exact (refused_process_or_pipe no_junk no_junk fresh_shell _ _ H
           pre (Ev fork (-1)) post eq_refl).
Defined.

(** X6: a process that a [fork] of the loop body made a child does not come
    back to the prompt: it is replaced by a program, exits, or runs into
    undefined behaviour.  The one exception is the child of a piped command
    whose own [fork] is refused: it reports ["Child fork failed"] and is
    back at the head of the loop, a second shell on the same input. *)
Theorem child_comes_back_only_refused (junk1 junk2 : nat -> cptr)
    (st st' : shell) (tr : list event) (o : outcome shell) :
  exec (iteration junk1 junk2 st) tr o ->
  (exists e, In e tr /\ fork_result e = Some 0) ->
  o = Returned st' ->
  (exists e pid, In e tr /\ fork_result e = Some pid /\ pid < 0) /\
  exists pre, tr = (pre ++ [Ev (perror "Child fork failed") tt])%list.
Proof.
  intros H (e & Hin & He) Ho. unfold_main H.
  exec_all H; try discriminate Ho; zbool;
    simpl in Hin;
    try (repeat (destruct Hin as [<-|Hin];
                 [cbn in He; try discriminate He;
                  injection He as He; try lia|]); contradiction).
  all: split;
    [match goal with
     | |- context [Ev fork ?r] =>
         exists (Ev fork r), r; split; [in_list|split; [reflexivity|lia]]
     end
    |match goal with
     | |- exists pre, ?l = _ => exists (removelast l); reflexivity
     end].
Qed.

Lemma child_comes_back_only_refused_witness :
  let tr := [Ev (printf "osh> ") tt; Ev fflush_stdout tt;
             Ev fgets_stdin (Some ("ls | wc" ++ nl)); Ev fork 0;
             Ev pipe (0, (3, 4)); Ev fork (-1);
             Ev (perror "Child fork failed") tt] in
  (exists e pid, In e tr /\ fork_result e = Some pid /\ pid < 0) /\
  exists pre, tr = (pre ++ [Ev (perror "Child fork failed") tt])%list.
Proof.
  intros tr.
  apply (child_comes_back_only_refused no_junk no_junk fresh_shell
           (Shell 1 (Some "ls" :: Some "|" :: Some "wc" :: replicate 38 NULL)
              "ls | wc")
           tr (Returned (Shell 1 (Some "ls" :: Some "|" :: Some "wc"
                                  :: replicate 38 NULL) "ls | wc"))).
  - unfold tr. exec_run.
  - exists (Ev fork 0). split; [in_list|reflexivity].
  - reflexivity.
Defined.

(** ** The arrays stay within bounds *)

Lemma after_every_split Q tr :
  after_every Q tr ->
  forall pre e post, tr = (pre ++ e :: post)%list -> Q e post.
Proof.
  intros H pre. revert tr H. induction pre as [|x pre IH]; intros tr H e post ->.
  - simpl in H. tauto.
  - simpl in H. apply (IH _ (proj2 H)). reflexivity.
Qed.

(** The pipe split on any array with room for it: the slots before [i]
    and [NULL], the slots from [i + 1] to [n - 1] and [NULL]. *)
Lemma split_pipe_slices junk1 junk2 (a : list cptr) n i :
  (i < n)%nat -> (n <= length a)%nat ->
  split_pipe junk1 junk2 a n i =
  Some ((take i a ++ [NULL])%list,
        (take (n - i - 1) (drop (S i) a) ++ [NULL])%list).
Proof.
  intros Hi Hn. unfold split_pipe.
  destruct (copy_loop_spec i (vla (i + 1) junk1) a 0 0) as (f & -> & Hfl & Hf & _).
  { rewrite length_vla. lia. } { lia. }
  rewrite length_vla in Hfl. cbn [mbind option_bind].
  rewrite store_Some by lia. cbn [mbind option_bind].
  destruct (copy_loop_spec (n - i - 1) (vla (n - i) junk2) a 0 (i + 1))
    as (g & -> & Hgl & Hg & _).
  { rewrite length_vla. lia. } { lia. }
  rewrite length_vla in Hgl. cbn [mbind option_bind].
  rewrite store_Some by lia. cbn [mbind option_bind].
  f_equal. f_equal.
  - apply list_eq. intros x.
    destruct (decide (x < i)%nat) as [Hx|Hx].
    + rewrite list_lookup_insert_ne by lia.
      rewrite Hf by lia. rewrite Nat.add_0_r.
      rewrite lookup_app_l by (rewrite length_take; lia).
      rewrite lookup_take_lt by lia. reflexivity.
    + destruct (decide (x = i)) as [->|Hne].
      * rewrite list_lookup_insert_eq by lia.
        rewrite lookup_app_r by (rewrite length_take; lia).
        rewrite length_take.
        replace (i - i `min` length a)%nat with 0%nat by lia. reflexivity.
      * rewrite !lookup_ge_None_2; [reflexivity| |].
        -- rewrite length_app, length_take. simpl. lia.
        -- rewrite length_insert. lia.
  - apply list_eq. intros x.
    destruct (decide (x < n - i - 1)%nat) as [Hx|Hx].
    + rewrite list_lookup_insert_ne by lia.
      rewrite Hg by lia.
      rewrite lookup_app_l by (rewrite length_take, length_drop; lia).
      rewrite lookup_take_lt by lia. rewrite lookup_drop. f_equal. lia.
    + destruct (decide (x = n - i - 1)%nat) as [->|Hne].
      * rewrite list_lookup_insert_eq by lia.
        rewrite lookup_app_r by (rewrite length_take, length_drop; lia).
        rewrite length_take, length_drop.
        replace (n - i - 1 - (n - i - 1) `min` (length a - S i))%nat
          with 0%nat by lia.
        reflexivity.
      * rewrite !lookup_ge_None_2; [reflexivity| |].
        -- rewrite length_app, length_take, length_drop. simpl. lia.
        -- rewrite length_insert. lia.
Qed.

(** What the interpreter guarantees of its result. *)
Lemma interpret_wellformed a cmd p :
  interpret a cmd = Some p ->
  length (p_args p) = length a /\ (numArgs p < length a)%nat /\
  (forall j, (j < numArgs p)%nat ->
     exists t, p_args p !! j = Some (Some t) /\ t <> "") /\
  p_args p !! numArgs p = Some NULL /\
  one_flag (found p) /\
  (first_operator (p_args p) 1 (numArgs p) (found p) \/
   no_operator (p_args p) 1 (numArgs p) (found p)).
Proof.
  unfold interpret. destruct (background cmd) as [[bg c]|]; [|discriminate].
  cbn. destruct (tokenize a c) as [[a' n]|] eqn:E; [|discriminate].
  cbn. destruct (scan_special a' n) as [sp|] eqn:Es; [|discriminate].
  intros [= <-]. cbn.
  destruct (tokenize_shape _ _ _ _ E) as (Hl & Hn & Htoks & Hend).
  split; [exact Hl|]. split; [exact Hn|]. split; [exact Htoks|].
  split; [exact Hend|].
  destruct (find_special_spec (n - 1) a' 1) as (sp' & Hsp & Hflag & Hchar).
  { intros j Hj. destruct (Htoks j ltac:(lia)) as (t & Ht & _). eauto. }
  unfold scan_special in Es. rewrite Hsp in Es. injection Es as <-.
  split; [exact Hflag|].
  destruct Hchar as [(Hi & Hat & Hbefore)|[[Hc Hnone] _]]; [left|right].
  - split; [lia|]. split; [exact Hat|exact Hbefore].
  - split; [exact Hc|]. intros j t Hj. apply Hnone. lia.
Qed.

Lemma operator_not_plain t c : operator t = Some c -> c <> Plain.
Proof.
  unfold operator. destruct (streq t "<"); [intros [= <-]; discriminate|].
  destruct (streq t ">"); [intros [= <-]; discriminate|].
  destruct (streq t "|"); [intros [= <-]; discriminate|discriminate].
Qed.

(** An operator was found exactly when a flag is raised, and it then lies
    after the command name and before the end of the vector. *)
Lemma interpret_operator a cmd p :
  interpret a cmd = Some p ->
  classify (found p) <> Plain ->
  (1 <= opIndex (found p) < numArgs p)%nat.
Proof.
  intros Hp Hc.
  destruct (interpret_wellformed _ _ _ Hp) as (_ & _ & _ & _ & _ & Hchar).
  destruct Hchar as [(Hi & _)|[Hplain _]]; [exact Hi|contradiction].
Qed.

Lemma store_inv (a a' : list cptr) k v :
  store a k v = Some a' -> (k < length a)%nat /\ a' = <[k:=v]> a.
Proof.
  unfold store. destruct (decide (k < length a)%nat); [|discriminate].
  intros [= <-]. split; [assumption|reflexivity].
Qed.

Lemma store_None (a : list cptr) k v :
  store a k v = None -> (length a <= k)%nat.
Proof.
  unfold store. destruct (decide (k < length a)%nat); [discriminate|lia].
Qed.

Lemma lookup_snoc_0 (l : list cptr) x : is_Some ((l ++ [x])%list !! 0%nat).
Proof. destruct l; simpl; eauto. Qed.

Ltac oob :=
  repeat match goal with
         | E : store _ _ _ = Some _ |- _ => apply store_inv in E as [? ->]
         | E : store _ _ _ = None |- _ => apply store_None in E
         | E : _ !! _ = None |- _ => apply lookup_ge_None in E
         end;
  rewrite ?length_insert, ?length_app, ?length_take, ?length_drop in *;
  cbn [length] in *.

Lemma child_undefined junk1 junk2 st a cmd p tr o :
  interpret a cmd = Some p ->
  exec (child junk1 junk2 st p) tr o -> o = Undefined ->
  ends_badly tr = true.
Proof.
  intros Hp H Ho.
  destruct (interpret_wellformed _ _ _ Hp)
    as (Hl & Hn & Htoks & Hend & Hflag & _).
  pose proof (interpret_operator _ _ _ Hp) as Hop.
  unfold classify in Hop.
  unfold child, plain_case, redirect, exec_command in H.
  destruct Hflag as [[Hpipe Hio]|[[Hpipe Hio]|[[Hpipe Hio]|[Hpipe Hio]]]];
    rewrite Hpipe, Hio in H, Hop; cbn [Z.eqb Pos.eqb] in H, Hop.
  - exec_all H; try discriminate Ho; [reflexivity|]. oob. lia.
  - specialize (Hop ltac:(discriminate)).
    destruct (Htoks 0%nat ltac:(lia)) as (t & Ht & _).
    exec_all H; try discriminate Ho; oob; try lia.
    rewrite !list_lookup_insert_ne in * by lia. congruence.
  - specialize (Hop ltac:(discriminate)).
    destruct (Htoks 0%nat ltac:(lia)) as (t & Ht & _).
    exec_all H; try discriminate Ho; oob; try lia.
    rewrite !list_lookup_insert_ne in * by lia. congruence.
  - specialize (Hop ltac:(discriminate)).
    destruct (Htoks 0%nat ltac:(lia)) as (t & Ht & _).
    unfold pipe_case in H.
    rewrite (split_pipe_slices junk1 junk2 (p_args p) (numArgs p)
               (opIndex (found p))) in H by lia.
    exec_all H; try discriminate Ho; try reflexivity;
      match goal with
      | E : (?l ++ [?x])%list !! 0%nat = None |- _ =>
          destruct (lookup_snoc_0 l x) as [? Hs]; congruence
      end.
Qed.

Lemma chop_last_None r : chop_last r = None -> r = "".
Proof. destruct r; [reflexivity|discriminate]. Qed.

Lemma ends_badly_cons e tr : ends_badly tr = true -> ends_badly (e :: tr) = true.
Proof.
  unfold ends_badly. destruct tr as [|x tr]; [discriminate|].
  rewrite last_cons_cons. auto.
Qed.

Lemma dispatch_undefined junk1 junk2 st cmd tr o :
  length (args st) = argSize -> cmd <> "" ->
  (strlen cmd <= MAX_LINE - 1)%nat ->
  exec (dispatch junk1 junk2 st cmd) tr o -> o = Undefined ->
  ends_badly tr = true.
Proof.
  intros Hlen Hne Hshort H Ho. unfold dispatch in H.
  destruct (interpret_total (args st) cmd Hlen Hne Hshort) as (p & Hp & _).
  rewrite Hp in H.
  exec_step H. repeat (exec_step H; try (exec_all H; discriminate Ho)).
  apply ends_badly_cons. exact (child_undefined _ _ _ _ _ _ _ _ Hp H Ho).
Qed.

Lemma iteration_undefined junk1 junk2 st tr o :
  shell_ok st ->
  exec (iteration junk1 junk2 st) tr o -> o = Undefined ->
  ends_badly tr = true.
Proof.
  intros [Hlen Hhist] H Ho. unfold iteration in H.
  exec_all H; try discriminate Ho;
    repeat match goal with
           | E : streq _ _ = false |- _ => apply String.eqb_neq in E
           | E : chop_last _ = Some _ |- _ =>
               pose proof (strlen_chop_last _ _ E); clear E
           | E : chop_last _ = None |- _ => apply chop_last_None in E; subst
           end; try reflexivity.
  all: apply dispatch_undefined in H;
    [repeat apply ends_badly_cons; exact H
    |first [exact Hlen|assumption|unfold MAX_LINE in *; lia]..].
Qed.



(** ** Opening the file of a redirection *)

(** X8: in every execution of a turn of the loop, an [open] is made with
    [O_RDONLY] or with [O_WRONLY | O_CREAT | O_TRUNC], and mode 0666.  When
    it gives [-1], or was given no name, the process reports (["Input file
    failed"] for the first, ["Output file failed"] for the second) and exits
    with status 1, without a [dup2] or an [execvp].  Otherwise the next call
    duplicates the descriptor it gave onto standard input for the first,
    standard output for the second, and the call after that is the
    [execvp]. *)
Theorem open_then_redirect (junk1 junk2 : nat -> cptr) (st : shell)
    (tr : list event) (o : outcome shell) :
  shell_ok st ->
  exec (iteration junk1 junk2 st) tr o ->
  forall pre e post path flags mode fd,
    tr = (pre ++ e :: post)%list ->
    open_call e = Some (path, flags, mode, fd) ->
    mode = mode_0666 /\
    ((flags = O_RDONLY /\
      if (fd =? -1) || is_null path
      then post = [Ev (perror "Input file failed") tt] /\ o = Exited 1
      else exists r x rest,
             post = Ev (dup2 fd STDIN_FILENO) r :: x :: rest /\
             is_execvp x = true) \/
     (flags = Z.lor (Z.lor O_WRONLY O_CREAT) O_TRUNC /\
      if (fd =? -1) || is_null path
      then post = [Ev (perror "Output file failed") tt] /\ o = Exited 1
      else exists r x rest,
             post = Ev (dup2 fd STDOUT_FILENO) r :: x :: rest /\
             is_execvp x = true)).
Proof.
  intros Hok H pre e post path flags mode fd Htr.
  revert path flags mode fd.
  revert pre e post Htr.
  apply (after_every_split
           (fun e post => forall path flags mode fd,
              open_call e = Some (path, flags, mode, fd) -> _)).
  pose proof (iteration_undefined _ _ _ _ _ Hok H) as Hbad.
  unfold_main H. exec_all H;
    cbn [after_every open_call]; repeat split; try congruence;
    try reflexivity;
    match goal with E : Some _ = Some _ |- _ => injection E as <- <- <- <- end;
    try reflexivity;
    match goal with E : (_ || _) = _ |- _ => rewrite E end;
    try (specialize (Hbad eq_refl); discriminate Hbad);
    first [left; split; [reflexivity|] | right; split; [reflexivity|]];
    first [split; reflexivity | eexists _, _, _; split; reflexivity].
Qed.

(** [cat < missing.txt] in the child, when the file cannot be opened. *)
Lemma open_then_redirect_witness :
  let pre := [Ev (printf "osh> ") tt; Ev fflush_stdout tt;
              Ev fgets_stdin (Some ("cat < missing.txt" ++ nl)); Ev fork 0] in
  let post := [Ev (perror "Input file failed") tt] in
  mode_0666 = mode_0666 /\
  ((O_RDONLY = O_RDONLY /\
    if (-1 =? -1) || is_null (Some "missing.txt")
    then post = [Ev (perror "Input file failed") tt] /\
         @Exited shell 1 = Exited 1
    else exists r x rest,
           post = Ev (dup2 (-1) STDIN_FILENO) r :: x :: rest /\
           is_execvp x = true) \/
   (O_RDONLY = Z.lor (Z.lor O_WRONLY O_CREAT) O_TRUNC /\
    if (-1 =? -1) || is_null (Some "missing.txt")
    then post = [Ev (perror "Output file failed") tt] /\
         @Exited shell 1 = Exited 1
    else exists r x rest,
           post = Ev (dup2 (-1) STDOUT_FILENO) r :: x :: rest /\
           is_execvp x = true)).
Proof.
  intros pre post.
  apply (open_then_redirect no_junk no_junk fresh_shell
           (pre ++ Ev (open (Some "missing.txt") O_RDONLY mode_0666) (-1)
            :: post) (Exited 1) (initial_ok no_junk)
           ltac:(unfold pre, post; exec_run)
           pre (Ev (open (Some "missing.txt") O_RDONLY mode_0666) (-1)) post
           (Some "missing.txt") O_RDONLY mode_0666 (-1) eq_refl eq_refl).
Defined.

(** ** The arguments a program is run with *)

Lemma argv_head (a : list cptr) file :
  a !! 0%nat = Some (Some file) -> head (argv a) = Some file.
Proof. destruct a as [|[s|] a]; simpl; congruence. Qed.

Lemma argv_insert_beyond (a : list cptr) k v :
  (length (argv a) < k)%nat -> argv (<[k:=v]> a) = argv a.
Proof.
  revert k. induction a as [|[s|] a IH]; intros k Hk; [reflexivity| |].
  - destruct k as [|k]; [simpl in Hk; lia|]. simpl in *.
    rewrite IH by lia. reflexivity.
  - destruct k as [|k]; [simpl in Hk; lia|]. reflexivity.
Qed.

Lemma argv_insert_null (a : list cptr) i :
  (i < length (argv a))%nat -> argv (<[i:=NULL]> a) = take i (argv a).
Proof.
  revert i. induction a as [|[s|] a IH]; intros i Hi; simpl in Hi; try lia.
  destruct i as [|i]; [reflexivity|]. simpl. rewrite IH by lia. reflexivity.
Qed.

Lemma argv_take_null (a : list cptr) i :
  (i <= length (argv a))%nat ->
  argv (take i a ++ [NULL])%list = take i (argv a).
Proof.
  revert i. induction a as [|[s|] a IH]; intros i Hi; simpl in Hi.
  - destruct i; reflexivity.
  - destruct i as [|i]; [reflexivity|]. simpl. rewrite IH by lia. reflexivity.
  - destruct i as [|i]; [reflexivity|lia].
Qed.

Lemma argv_drop (a : list cptr) k :
  (k <= length (argv a))%nat -> argv (drop k a) = drop k (argv a).
Proof.
  revert k. induction a as [|[s|] a IH]; intros k Hk; simpl in Hk.
  - destruct k; reflexivity.
  - destruct k as [|k]; [reflexivity|]. simpl. apply IH. lia.
  - destruct k as [|k]; [reflexivity|lia].
Qed.

Lemma interpret_tokens a cmd p :
  interpret a cmd = Some p ->
  length (argv (p_args p)) = numArgs p.
Proof.
  unfold interpret. destruct (background cmd) as [[bg c]|]; [|discriminate].
  cbn. destruct (tokenize a c) as [[a' n]|] eqn:E; [|discriminate].
  cbn. destruct (scan_special a' n); [|discriminate].
  intros [= <-]. cbn.
  destruct (tokenize_words _ _ _ _ E) as (toks & -> & Ha & _).
  rewrite Ha. rewrite argv_tokens. reflexivity.
Qed.

Lemma program_arguments_aux junk1 junk2 st a cmd p tr o file av :
  interpret a cmd = Some p ->
  exec (child junk1 junk2 st p) tr o -> o = Replaced file av ->
  head av = Some file /\
  match classify (found p) with
  | Plain => av = argv (p_args p)
  | InputRedirect | OutputRedirect =>
      av = take (opIndex (found p)) (argv (p_args p))
  | Pipe =>
      exists r pid rest,
        tr = Ev pipe r :: Ev fork pid :: rest /\
        ((pid = 0 /\ av = take (opIndex (found p)) (argv (p_args p))) \/
         (0 < pid /\
          av = drop (S (opIndex (found p))) (argv (p_args p))))
  end.
Proof.
  intros Hp H Ho.
  destruct (interpret_wellformed _ _ _ Hp)
    as (Hl & Hn & Htoks & Hend & Hflag & _).
  pose proof (interpret_operator _ _ _ Hp) as Hop.
  pose proof (interpret_tokens _ _ _ Hp) as Hlen.
  unfold classify in *.
  unfold child, plain_case, redirect, exec_command in H.
  destruct Hflag as [[Hpipe Hio]|[[Hpipe Hio]|[[Hpipe Hio]|[Hpipe Hio]]]];
    rewrite Hpipe, Hio in *; cbn [Z.eqb Pos.eqb] in *.
  - exec_all H; try discriminate Ho. injection Ho as <- <-.
    split; [apply argv_head; assumption|reflexivity].
  - specialize (Hop ltac:(discriminate)).
    exec_all H; try discriminate Ho. injection Ho as <- <-. oob.
    split; [apply argv_head; assumption|].
    rewrite argv_insert_beyond; rewrite argv_insert_null; try lia.
    + reflexivity.
    + rewrite length_take. lia.
  - specialize (Hop ltac:(discriminate)).
    exec_all H; try discriminate Ho. injection Ho as <- <-. oob.
    split; [apply argv_head; assumption|].
    rewrite argv_insert_beyond; rewrite argv_insert_null; try lia.
    + reflexivity.
    + rewrite length_take. lia.
  - specialize (Hop ltac:(discriminate)).
    unfold pipe_case in H.
    rewrite (split_pipe_slices junk1 junk2 (p_args p) (numArgs p)
               (opIndex (found p))) in H by lia.
    exec_all H; try discriminate Ho; injection Ho as <- <-; zbool;
      (split; [apply argv_head; assumption|]); eexists _, _, _;
      (split; [reflexivity|]).
    + right. split; [lia|].
      rewrite <- argv_drop by lia.
      rewrite argv_take_null.
      * apply take_ge. rewrite argv_drop, length_drop by lia. lia.
      * rewrite argv_drop, length_drop by lia. lia.
    + left. split; [reflexivity|]. apply argv_take_null. lia.
Qed.

(** X9: when the child of an interpreted line is replaced by a program,
    the program's first argument is its own name, and its arguments are:
    all the tokens for a plain command; the tokens before the operator for
    a redirection (the operator and the file name are cut off); and for a
    pipe the tokens before [|] in the process that the second [fork] made
    (the first stage), the tokens after [|] in the process that made it
    (the second stage). *)
Theorem program_arguments (junk1 junk2 : nat -> cptr) (st : shell)
    (a : list cptr) (cmd : string) (p : parsed) (tr : list event)
    (file : string) (av : list string) :
  interpret a cmd = Some p ->
  exec (child junk1 junk2 st p) tr (Replaced file av) ->
  head av = Some file /\
  match classify (found p) with
  | Plain => av = argv (p_args p)
  | InputRedirect | OutputRedirect =>
      av = take (opIndex (found p)) (argv (p_args p))
  | Pipe =>
      exists r pid rest,
        tr = Ev pipe r :: Ev fork pid :: rest /\
        ((pid = 0 /\ av = take (opIndex (found p)) (argv (p_args p))) \/
         (0 < pid /\
          av = drop (S (opIndex (found p))) (argv (p_args p))))
  end.
Proof.
  intros Hp H. exact (program_arguments_aux _ _ _ _ _ _ _ _ _ _ Hp H eq_refl).
Qed.

(** [sort -r < names.txt]: [sort] is run with [sort -r]. *)
Lemma program_arguments_witness :
  let p := Parsed 0
             (Some "sort" :: Some "-r" :: Some "<" :: Some "names.txt"
              :: replicate 37 NULL) 4 (Special 0 1 2) in
  head ["sort"; "-r"] = Some "sort" /\
  ["sort"; "-r"] = take 2 (argv (p_args p)).
Proof.
  intros p.
  apply (program_arguments no_junk no_junk fresh_shell
           (replicate argSize NULL) "sort -r < names.txt" p
           [Ev (open (Some "names.txt") O_RDONLY mode_0666) 3;
            Ev (dup2 3 STDIN_FILENO) 0;
            Gone (execvp (Some "sort")
                    (Some "sort" :: Some "-r" :: replicate 39 NULL))]
           "sort" ["sort"; "-r"]).
  - vm_compute. reflexivity.
  - exec_run.
Defined.

(** ** What the history slot can hold *)

Lemma iteration_history_ok junk1 junk2 st tr st' :
  history_ok st -> exec (iteration junk1 junk2 st) tr (Returned st') ->
  history_ok st'.
Proof.
  intros Hok H. unfold iteration in H.
  remember (Returned st') as o eqn:Ho.
  exec_all H; try discriminate Ho; try (injection Ho as <-; exact Hok).
  - destruct (dispatch_ok _ _ _ _ _ _ _ H Ho) as [_ Hh].
    unfold history_ok. rewrite Hh. exact Hok.
  - destruct (dispatch_ok _ _ _ _ _ _ _ H Ho) as [_ Hh].
    cbn [history] in Hh. unfold history_ok. rewrite Hh. right.
    match goal with
    | E : chop_last _ = Some _ |- _ => apply strlen_chop_last in E
    end.
    split; [|cbn [returns] in *; lia].
    unfold is_command.
    repeat match goal with E : streq _ _ = false |- _ => rewrite E; clear E end.
    reflexivity.
Qed.

Lemma loop_history_ok junk1 junk2 st tr st' :
  loop junk1 junk2 st tr st' -> history_ok st -> history_ok st'.
Proof.
  induction 1 as [st|st tr1 st1 tr2 st2 _ Hturn _ IH]; [auto|].
  intros Hok. apply IH. exact (iteration_history_ok _ _ _ _ _ Hok Hturn).
Qed.

(** X10: from the start of the shell on, [args] keeps its [argSize] slots,
    [should_run] is 0 or 1, and the history slot is either empty or holds a
    command: never the empty line, [exit] or [!!], and short enough for
    [strcpy] into [theCommand] or [history] to stay inside the
    [MAX_LINE] characters of the buffer. *)
Theorem shell_state_invariant (junk1 junk2 junk : nat -> cptr)
    (tr : list event) (st : shell) :
  loop junk1 junk2 (initial junk) tr st ->
  length (args st) = argSize /\
  (should_run st = 0 \/ should_run st = 1) /\
  (history st = "" \/
   (is_command (history st) = true /\
    (strlen (history st) + 1 < MAX_LINE)%nat)).
Proof.
  intros Hloop.
  destruct (loop_ok _ _ _ _ _ Hloop (initial_ok junk)) as [Hlen _].
  split; [exact Hlen|]. split.
  - destruct (loop_should_run _ _ _ _ _ Hloop) as [[Hs _]|[Hz _]];
      [right; exact Hs|left; exact Hz].
  - apply (loop_history_ok _ _ _ _ _ Hloop). left. reflexivity.
Qed.

Lemma shell_state_invariant_witness :
  let turn1 := [Ev (printf "osh> ") tt; Ev fflush_stdout tt;
                Ev fgets_stdin (Some ("ls &" ++ nl)); Ev fork 7] in
  let turn2 := [Ev (printf "osh> ") tt; Ev fflush_stdout tt;
                Ev fgets_stdin (Some ("exit" ++ nl))] in
  let st := Shell 0 (Some "ls" :: replicate 40 NULL) "ls &" in
  loop no_junk no_junk (initial no_junk) (turn1 ++ turn2) st /\
  length (args st) = argSize /\
  (should_run st = 0 \/ should_run st = 1) /\
  (history st = "" \/
   (is_command (history st) = true /\
    (strlen (history st) + 1 < MAX_LINE)%nat)).
Proof.
  intros turn1 turn2 st.
  assert (Hloop : loop no_junk no_junk (initial no_junk)
                    (turn1 ++ turn2)%list st).
  { eapply loop_turn; [discriminate|unfold turn1; exec_run|].
    rewrite <- (app_nil_r turn2).
    eapply loop_turn; [discriminate|unfold turn2; exec_run|].
    apply loop_here. }
  split; [exact Hloop|].
  exact (shell_state_invariant no_junk no_junk no_junk _ st Hloop).
Defined.

(** ** Recalling the last command *)

Lemma recall_dispatch junk1 junk2 st tr o :
  exec (iteration junk1 junk2 st) tr o ->
  entered tr = ["!!"] -> history st <> "" ->
  exists line rest,
    tr = ([Ev (printf "osh> ") tt; Ev fflush_stdout tt; Ev fgets_stdin (Some line);
           Ev (printf ("Previous command: " ++ history st ++ nl)%string) tt]
          ++ rest)%list /\
    exec (dispatch junk1 junk2 st (history st)) rest o.
Proof.
  intros H Hent Hh. unfold iteration in H. exec_all H;
    unfold entered in Hent; cbn [omap list_omap entered_line] in Hent;
    try match goal with E : chop_last _ = _ |- _ => rewrite E in Hent end;
    cbn [omap list_omap] in Hent; try discriminate Hent;
    injection Hent; intros; subst;
    repeat match goal with
           | E : streq _ _ = true |- _ => apply String.eqb_eq in E
           end;
    try congruence; try discriminate.
  eexists _, _. split; [reflexivity|exact H].
Qed.

Lemma direct_dispatch junk1 junk2 st rest o :
  is_command (history st) = true ->
  (strlen (history st) + 1 < MAX_LINE)%nat ->
  exec (dispatch junk1 junk2 st (history st)) rest o ->
  exec (iteration junk1 junk2 st)
    ([Ev (printf "osh> ") tt; Ev fflush_stdout tt;
      Ev fgets_stdin (Some (history st ++ nl)%string)] ++ rest)%list o.
Proof.
  intros Hcmd Hshort H. destruct st as [run a h]. cbn [history] in *.
  unfold is_command in Hcmd.
  apply andb_true_iff in Hcmd as [[Hc1 Hc2]%andb_true_iff Hc3].
  apply negb_true_iff in Hc1, Hc2, Hc3.
  unfold iteration. cbn [exec mbind proc_bind bind call app].
  left. exists tt. eexists. split; [exact I|]. split; [reflexivity|].
  left. exists tt. eexists. split; [exact I|]. split; [reflexivity|].
  left. exists (Some (h ++ nl)). eexists. split; [|split; [reflexivity|]].
  - cbn [returns]. rewrite strlen_app. cbn. lia.
  - unfold nl at 1. rewrite chop_last_snoc. rewrite Hc1, Hc2, Hc3.
    exact H.
Qed.

(** X11: from the start of the shell on, a turn that reads [!!] with a
    command in the history slot echoes it and then does what a turn does
    that reads that command itself: put the calls it makes after the echo
    behind the prompt and the [fgets] of the command, and this is an
    execution of a turn from the same state, with the same end. *)
Theorem recall_replays (junk1 junk2 junk : nat -> cptr) (tr0 : list event)
    (st : shell) (tr : list event) (o : outcome shell) :
  loop junk1 junk2 (initial junk) tr0 st ->
  exec (iteration junk1 junk2 st) tr o ->
  entered tr = ["!!"] -> history st <> "" ->
  exists line rest,
    tr = ([Ev (printf "osh> ") tt; Ev fflush_stdout tt; Ev fgets_stdin (Some line);
           Ev (printf ("Previous command: " ++ history st ++ nl)%string) tt]
          ++ rest)%list /\
    exec (iteration junk1 junk2 st)
      ([Ev (printf "osh> ") tt; Ev fflush_stdout tt;
        Ev fgets_stdin (Some (history st ++ nl)%string)] ++ rest)%list o.
Proof.
  intros Hloop H Hent Hh.
  destruct (recall_dispatch _ _ _ _ _ H Hent Hh) as (line & rest & -> & Hd).
  exists line, rest. split; [reflexivity|].
  destruct (loop_history_ok _ _ _ _ _ Hloop (or_introl eq_refl))
    as [Hempty|[Hcmd Hshort]]; [contradiction|].
  exact (direct_dispatch _ _ _ _ _ Hcmd Hshort Hd).
Qed.

(** [ls], then [!!], seen from the shell itself. *)
Lemma recall_replays_witness :
  let st := Shell 1 (Some "ls" :: replicate 40 NULL) "ls" in
  let tr := [Ev (printf "osh> ") tt; Ev fflush_stdout tt;
             Ev fgets_stdin (Some ("!!" ++ nl));
             Ev (printf ("Previous command: ls" ++ nl)) tt;
             Ev fork 8; Ev wait 8] in
  exists line rest,
    tr = ([Ev (printf "osh> ") tt; Ev fflush_stdout tt; Ev fgets_stdin (Some line);
           Ev (printf ("Previous command: " ++ history st ++ nl)%string) tt]
          ++ rest)%list /\
    exec (iteration no_junk no_junk st)
      ([Ev (printf "osh> ") tt; Ev fflush_stdout tt;
        Ev fgets_stdin (Some (history st ++ nl)%string)] ++ rest)%list
      (Returned st).
Proof.
  intros st tr.
  apply (recall_replays no_junk no_junk no_junk
           [Ev (printf "osh> ") tt; Ev fflush_stdout tt;
            Ev fgets_stdin (Some ("ls" ++ nl)); Ev fork 7; Ev wait 7]
           st tr (Returned st)).
  - rewrite <- (app_nil_r [_; _; _; _; _]).
    eapply loop_turn; [discriminate|exec_run|]. apply loop_here.
  - unfold tr. exec_run.
  - reflexivity.
  - discriminate.
Defined.

(** ** Descriptors left open *)

Lemma close_both (r w : Z) :
  List.filter (fun x => negb (x =? w))
    (List.filter (fun x => negb (x =? r)) [r; w]) = [] /\
  List.filter (fun x => negb (x =? r))
    (List.filter (fun x => negb (x =? w)) [r; w]) = [].
Proof.
  simpl. rewrite !Z.eqb_refl. simpl.
  destruct (Z.eqb_spec w r) as [->|Hne]; simpl.
  - rewrite ?Z.eqb_refl. split; reflexivity.
  - destruct (Z.eqb_spec r w) as [->|Hne']; [contradiction|]. simpl.
    rewrite !Z.eqb_refl. split; reflexivity.
Qed.

Lemma descriptors_at_exec_aux junk1 junk2 st tr o file av :
  exec (iteration junk1 junk2 st) tr o -> o = Replaced file av ->
  still_open tr = [] \/
  exists pre path flags mode fd r x,
    tr = (pre ++
          [Ev (open path flags mode) fd;
           Ev (dup2 fd (if flags =? O_RDONLY then STDIN_FILENO
                        else STDOUT_FILENO)) r; x])%list /\
    still_open tr = [fd].
Proof.
  intros H Ho.
  unfold_main H. exec_all H; try discriminate Ho;
    unfold still_open; cbn [foldl descriptors_after fst snd app];
    repeat match goal with
           | E : (_ || _) = false |- _ =>
               apply orb_false_elim in E as [E _]; rewrite E
           | E : (_ =? -1) = false |- _ => rewrite E
           end;
    cbn [foldl descriptors_after fst snd app List.filter];
    try (left; reflexivity);
    try (left; apply close_both);
    right;
    match goal with
    | |- context [?a :: ?b :: ?c :: ?d :: ?e ::
                  Ev (open ?path ?flags ?mode) ?fd ::
                  Ev (dup2 _ _) ?r2 :: ?x :: nil] =>
        exists [a; b; c; d; e], path, flags, mode, fd, r2, x;
        split; reflexivity
    | |- context [?a :: ?b :: ?c :: ?d ::
                  Ev (open ?path ?flags ?mode) ?fd ::
                  Ev (dup2 _ _) ?r2 :: ?x :: nil] =>
        exists [a; b; c; d], path, flags, mode, fd, r2, x;
        split; reflexivity
    end.
Qed.

(** X12: when a process of the loop body is replaced by a program, no
    descriptor of a pipe is left open in it: each stage has closed both
    ends after duplicating the one it uses.  The descriptor that [open]
    gave for a redirection is the one descriptor that is left open, beside
    its duplicate on standard input or output. *)
Theorem descriptors_at_exec (junk1 junk2 : nat -> cptr) (st : shell)
    (tr : list event) (file : string) (av : list string) :
  exec (iteration junk1 junk2 st) tr (Replaced file av) ->
  still_open tr = [] \/
  exists pre path flags mode fd r x,
    tr = (pre ++
          [Ev (open path flags mode) fd;
           Ev (dup2 fd (if flags =? O_RDONLY then STDIN_FILENO
                        else STDOUT_FILENO)) r; x])%list /\
    still_open tr = [fd].
Proof.
  intros H. exact (descriptors_at_exec_aux _ _ _ _ _ _ _ H eq_refl).
Qed.

(** The second stage of [ls | wc]: the pipe gave 3 and 4. *)
Lemma descriptors_at_exec_witness :
  let tr := [Ev (printf "osh> ") tt; Ev fflush_stdout tt;
             Ev fgets_stdin (Some ("ls | wc" ++ nl)); Ev fork 0;
             Ev pipe (0, (3, 4)); Ev fork 9; Ev wait 9;
             Ev (dup2 3 STDIN_FILENO) 0; Ev (close 3) 0; Ev (close 4) 0;
             Gone (execvp (Some "wc") [Some "wc"; NULL])] in
  exec (iteration no_junk no_junk fresh_shell) tr (Replaced "wc" ["wc"]) /\
  (still_open tr = [] \/
   exists pre path flags mode fd r x,
     tr = (pre ++
           [Ev (open path flags mode) fd;
            Ev (dup2 fd (if flags =? O_RDONLY then STDIN_FILENO
                         else STDOUT_FILENO)) r; x])%list /\
     still_open tr = [fd]).
Proof.
  intros tr.
  assert (H : exec (iteration no_junk no_junk fresh_shell) tr
                (Replaced "wc" ["wc"])).
  { unfold tr. exec_run. }
  split; [exact H|].
  exact (descriptors_at_exec no_junk no_junk fresh_shell tr "wc" ["wc"] H).
Defined.

(** ** The calls of [exit] *)

Lemma exit_status_aux junk1 junk2 st tr o n :
  exec (iteration junk1 junk2 st) tr o -> o = Exited n ->
  n = 1 /\
  exists pre msg,
    tr = (pre ++ [Ev (perror msg) tt])%list /\
    In msg ["Pipe failed"; "Exec failed"; "Input file failed";
            "Output file failed"].
Proof.
  intros H Ho. unfold_main H. exec_all H; try discriminate Ho;
    injection Ho as <-; (split; [reflexivity|]);
    match goal with
    | |- exists pre msg, ?l = _ /\ _ =>
        exists (removelast l); eexists; split; [reflexivity|in_list]
    end.
Qed.

(** X13: when a turn of the loop ends in a call of [exit], the status is 1
    and the call just before it is the [perror] that says why: the pipe
    could not be made, the file of a redirection could not be opened, or
    the [execvp] failed.  The [exit(1)] of line 224 is not reached, since
    [execvp] comes back only with [-1].  The statement is about the calls
    of [exit]: a process that reads the line [exit] leaves by the end of
    [main], with status 0 and without a report. *)
Theorem exits_after_report (junk1 junk2 : nat -> cptr) (st : shell)
    (tr : list event) (n : Z) :
  exec (iteration junk1 junk2 st) tr (Exited n) ->
  n = 1 /\
  exists pre msg,
    tr = (pre ++ [Ev (perror msg) tt])%list /\
    In msg ["Pipe failed"; "Exec failed"; "Input file failed";
            "Output file failed"].
Proof. intros H. exact (exit_status_aux _ _ _ _ _ _ H eq_refl). Qed.

(** [ls | wc] in the child, when no pipe can be made. *)
Lemma exits_after_report_witness :
  let tr := [Ev (printf "osh> ") tt; Ev fflush_stdout tt;
             Ev fgets_stdin (Some ("ls | wc" ++ nl)); Ev fork 0;
             Ev pipe ((-1), (0, 0)); Ev (perror "Pipe failed") tt] in
  1 = 1 /\
  exists pre msg,
    tr = (pre ++ [Ev (perror msg) tt])%list /\
    In msg ["Pipe failed"; "Exec failed"; "Input file failed";
            "Output file failed"].
Proof.
  intros tr.
  apply (exits_after_report no_junk no_junk fresh_shell tr 1).
  unfold tr. exec_run.
Defined.

(** ** The two ends of the pipe *)

(** X14: in every execution of a turn of the loop, a [pipe] that did not
    fail is followed by the [fork].  The process the [fork] made duplicates
    the write end onto standard output, closes both ends and calls
    [execvp]: the first stage writes into the pipe.  The process that made
    it calls [wait], duplicates the read end onto standard input, closes
    both ends and calls [execvp]: the second stage reads from the pipe. *)
Theorem pipe_wiring (junk1 junk2 : nat -> cptr) (st : shell)
    (tr : list event) (o : outcome shell) :
  shell_ok st ->
  exec (iteration junk1 junk2 st) tr o ->
  forall pre e post ret fdREAD fdWRITE,
    tr = (pre ++ e :: post)%list ->
    pipe_call e = Some (ret, fdREAD, fdWRITE) -> ret <> -1 ->
    exists pid rest,
      post = Ev fork pid :: rest /\
      (pid = 0 ->
       exists r1 r2 r3 x rest',
         rest = Ev (dup2 fdWRITE STDOUT_FILENO) r1 :: Ev (close fdWRITE) r2
                :: Ev (close fdREAD) r3 :: x :: rest' /\
         is_execvp x = true) /\
      (0 < pid ->
       exists w r1 r2 r3 x rest',
         rest = Ev wait w :: Ev (dup2 fdREAD STDIN_FILENO) r1
                :: Ev (close fdREAD) r2 :: Ev (close fdWRITE) r3
                :: x :: rest' /\
         is_execvp x = true).
Proof.
  intros Hok H pre e post ret fdREAD fdWRITE Htr.
  revert ret fdREAD fdWRITE. pattern e, post.
  revert pre e post Htr. apply after_every_split.
  pose proof (iteration_undefined _ _ _ _ _ Hok H) as Hbad.
  unfold_main H. exec_all H;
    cbn [after_every pipe_call fst snd]; repeat split; try congruence;
    try reflexivity;
    try (specialize (Hbad eq_refl); discriminate Hbad);
    intros ret fdREAD fdWRITE [= <- <- <-] Hret; zbool; try congruence;
    eexists _, _; (split; [reflexivity|]);
    (split; intros Hpid; try lia);
    first [eexists _, _, _, _, _; split; reflexivity
          |eexists _, _, _, _, _, _; split; reflexivity].
Qed.

(** The first stage of [ls | wc]: the pipe gave 3 and 4. *)
Lemma pipe_wiring_witness :
  let pre := [Ev (printf "osh> ") tt; Ev fflush_stdout tt;
              Ev fgets_stdin (Some ("ls | wc" ++ nl)); Ev fork 0] in
  let post := [Ev fork 0; Ev (dup2 4 STDOUT_FILENO) 1; Ev (close 4) 0;
               Ev (close 3) 0; Gone (execvp (Some "ls") [Some "ls"; NULL])] in
  exists pid rest,
    post = Ev fork pid :: rest /\
    (pid = 0 ->
     exists r1 r2 r3 x rest',
       rest = Ev (dup2 4 STDOUT_FILENO) r1 :: Ev (close 4) r2
              :: Ev (close 3) r3 :: x :: rest' /\
       is_execvp x = true) /\
    (0 < pid ->
     exists w r1 r2 r3 x rest',
       rest = Ev wait w :: Ev (dup2 3 STDIN_FILENO) r1
              :: Ev (close 3) r2 :: Ev (close 4) r3 :: x :: rest' /\
       is_execvp x = true).
Proof.
  intros pre post.
  apply (pipe_wiring no_junk no_junk fresh_shell
           (pre ++ Ev pipe (0, (3, 4)) :: post) (Replaced "ls" ["ls"])
           (initial_ok no_junk) ltac:(unfold pre, post; exec_run)
           pre (Ev pipe (0, (3, 4))) post 0 3 4 eq_refl eq_refl).
  discriminate.
Defined.


(** ** The shell and its foreground command *)

(** X15: a turn of the shell itself (no [fork] gave it 0), entered with no
    child of its own around: whenever its [wait] comes back, the child it
    forked in this turn has ended and none is running, so the shell is not
    back at the prompt while its foreground command runs. *)
Theorem foreground_wait_ends (junk1 junk2 : nat -> cptr) (st : shell)
    (tr : list (event * kids)) (o : outcome shell) :
  exec_k (iteration junk1 junk2 st) (Kids 0 0) tr o ->
  (forall x, In x tr -> fork_result x.1 <> Some 0) ->
  Forall (fun x => is_wait x.1 = true -> x.2 = Kids 0 1) tr.
Proof.
  intros H Hrole. unfold_main H. execk_all H;
    try (exfalso;
         match goal with
         | |- _ => match type of Hrole with
                   | context [(Ev fork 0, ?k)] =>
                       apply (Hrole (Ev fork 0, k)); [in_list|reflexivity]
                   end
         end);
    repeat constructor; cbn; intros; try discriminate; reflexivity.
Qed.

Lemma foreground_wait_ends_witness :
  let tr := [(Ev (printf "osh> ") tt, Kids 0 0);
             (Ev fflush_stdout tt, Kids 0 0);
             (Ev fgets_stdin (Some ("ls" ++ nl)), Kids 0 0);
             (Ev fork 7, Kids 0 0); (Ev wait 7, Kids 0 1)] in
  Forall (fun x => is_wait x.1 = true -> x.2 = Kids 0 1) tr.
Proof.
  intros tr.
  apply (foreground_wait_ends no_junk no_junk fresh_shell tr
           (Returned (Shell 1 (Some "ls" :: replicate 40 NULL) "ls"))).
  - unfold tr. execk_run.
  - intros x Hx. simpl in Hx.
    repeat (destruct Hx as [<-|Hx]; [discriminate|]). contradiction.
Defined.
